(** * Batch update resolver of the GraphQL query runner

    A shallow embedding of
    [packages/twenty-server/src/engine/api/graphql/graphql-query-runner/
     resolvers/graphql-query-update-many-resolver.service.ts]
    (class [GraphqlQueryUpdateManyResolverService], methods [validate] and
    [resolve]) and the properties its specification states about it.

    The resolver is a straight-line pipeline over injected collaborators
    (repository, filter parser, formatters, event emitter, relation
    hydrator).  The collaborators are not part of the file: they are the
    fields of the class [Platform] below, and every theorem holds for every
    instance of it.  What the resolver itself does -- the order of the calls,
    the arguments it passes, the aliasing between the record objects it
    holds and the ones it hands out -- is modelled in a state-and-exception
    monad over a machine with two stores (query builder instances, record
    objects) and a log of the collaborator calls. *)

From Stdlib Require Import ZArith Ascii String.
From stdpp Require Import base option list strings.

Set Warnings "-register-all".

Local Open Scope string_scope.
Local Open Scope list_scope.

(** ** JavaScript values *)

(** Plain data as [structuredClone] sees it.  The fields of an object are
    kept in the order in which the object enumerates its own keys. *)
Inductive JsVal : Type :=
| JUndefined
| JNull
| JBool (b : bool)
| JNum (z : Z)
| JStr (s : string)
| JArr (items : list JsVal)
| JObj (fields : list (string * JsVal)).

Definition JsObject : Type := list (string * JsVal).

(** [Object.keys(o)] *)
Definition Object_keys (o : JsObject) : list string := map fst o.

(** The test of [if (v)]: every object and array is truthy, the empty
    object too. *)
Definition truthy (v : JsVal) : bool :=
  match v with
  | JUndefined | JNull => false
  | JBool b => b
  | JNum z => negb (z =? 0)%Z
  | JStr s => negb (String.eqb s "")
  | JArr _ | JObj _ => true
  end.

(** What the specification calls a field selection that requests related
    entities: the selection names at least one relation.  The resolver does
    not look inside the selection, it tests [truthy]. *)
Definition selection_requests_related_entities (relations : JsVal) : bool :=
  match relations with
  | JObj (_ :: _) => true
  | _ => false
  end.

(** lodash [isEmpty] on an array *)
Definition isEmpty {A : Type} (l : list A) : bool :=
  match l with
  | [] => true
  | _ :: _ => false
  end.

(** ** Data model *)

Definition ObjectRecord : Type := JsObject.
Definition RawRow : Type := JsObject.

(** Modelled from the spec: the filter type [ObjectRecordFilter] is declared
    outside the resolver.  The spec calls it a tree of field/operator/value
    nodes; the resolver reads [filter.id?.in] as a list of strings.  The
    operators of the [id] field, the clauses on other fields (field name and
    operator object) and the [and]/[or]/[not] nodes are kept, an absent
    property is [None]. *)
Record UUIDFilter : Type := {
  uuid_eq : option string;
  uuid_in : option (list string);
  uuid_neq : option string;
  uuid_is : option string;
}.

Inductive ObjectRecordFilter : Type :=
| RecordFilter
    (id_clause : option UUIDFilter)
    (field_clauses : list (string * JsVal))
    (and_nodes or_nodes : option (list ObjectRecordFilter))
    (not_node : option ObjectRecordFilter).

Definition filter_id (f : ObjectRecordFilter) : option UUIDFilter :=
  match f with RecordFilter i _ _ _ _ => i end.
Definition filter_fields (f : ObjectRecordFilter) : list (string * JsVal) :=
  match f with RecordFilter _ fs _ _ _ => fs end.
Definition filter_and (f : ObjectRecordFilter) : option (list ObjectRecordFilter) :=
  match f with RecordFilter _ _ a _ _ => a end.
Definition filter_or (f : ObjectRecordFilter) : option (list ObjectRecordFilter) :=
  match f with RecordFilter _ _ _ o _ => o end.
Definition filter_not (f : ObjectRecordFilter) : option ObjectRecordFilter :=
  match f with RecordFilter _ _ _ _ n => n end.

(** [filter.id?.in] *)
Definition filter_id_in (f : ObjectRecordFilter) : option (list string) :=
  match filter_id f with
  | None => None
  | Some i => uuid_in i
  end.

(** The part of [ObjectMetadataItemWithFieldMaps] the resolver reads
    ([nameSingular], [isCustom]), the flag the remote-object guard reads, and
    the field maps it only passes on. *)
Record ObjectMetadataItemWithFieldMaps : Type := {
  nameSingular : string;
  isCustom : bool;
  isRemote : bool;
  fieldMaps : JsVal;
}.

(** [UpdateManyResolverArgs]: [filter] may be missing at run time, which is
    what [validate] tests. *)
Record UpdateManyResolverArgs : Type := {
  args_filter : option ObjectRecordFilter;
  args_data : JsObject;
}.

Record WorkspaceQueryRunnerOptions : Type := {
  authContext : JsVal;
  objectMetadataItemWithFieldMaps : ObjectMetadataItemWithFieldMaps;
  objectMetadataMaps : JsVal;
}.

(** [GraphqlQueryResolverExecutionArgs<UpdateManyResolverArgs>].  The
    repository and the parser are collaborators (see [Platform]). *)
Record ExecutionArgs : Type := {
  ea_args : UpdateManyResolverArgs;
  ea_options : WorkspaceQueryRunnerOptions;
  ea_roleId : JsVal;
  ea_relations : JsVal;             (* graphqlQuerySelectedFieldsResult.relations *)
  ea_workspaceDataSource : JsVal;
  ea_isExecutedByApiKey : bool;
}.

(** ** Exceptions *)

Inductive GraphqlQueryRunnerExceptionCode : Type :=
| RECORD_NOT_FOUND.

(** [Error] and [GraphqlQueryRunnerException] are raised by the resolver
    itself.  [MutationNotAllowed] and [InvalidIdentifier] are the spec's names
    for what the two imported assertions raise.  [Thrown] is whatever a
    collaborator throws. *)
Inductive Exn : Type :=
| Error (message : string)
| GraphqlQueryRunnerException (message : string) (code : GraphqlQueryRunnerExceptionCode)
| MutationNotAllowed
| InvalidIdentifier (value : string)
| TypeError
| Thrown (v : JsVal).

(** The stage of the pipeline in which a call failed. *)
Inductive Stage : Type :=
| Validating
| SnapshottingExisting
| Mutating
| EmittingEvent
| HydratingRelations.

Definition Failure : Type := Stage * Exn.

(** ** Payloads of the two outgoing calls

    [R] is how a record is denoted: a reference into the object store on the
    resolver's side, its contents on the collaborator's side. *)

Record UpdateEventPayload (R : Type) : Type := {
  ev_existingRecords : list R;
  ev_records : list R;
  ev_updatedFields : list string;
  ev_authContext : JsVal;
  ev_objectMetadataItem : JsVal;
}.
Arguments ev_existingRecords {R} _.
Arguments ev_records {R} _.
Arguments ev_updatedFields {R} _.
Arguments ev_authContext {R} _.
Arguments ev_objectMetadataItem {R} _.

Record NestedRelationsArgs (R : Type) : Type := {
  nr_objectMetadataMaps : JsVal;
  nr_parentObjectMetadataItem : ObjectMetadataItemWithFieldMaps;
  nr_parentObjectRecords : list R;
  nr_relations : JsVal;
  nr_limit : Z;
  nr_authContext : JsVal;
  nr_workspaceDataSource : JsVal;
  nr_roleId : JsVal;
  nr_shouldBypassPermissionChecks : bool;
}.
Arguments nr_objectMetadataMaps {R} _.
Arguments nr_parentObjectMetadataItem {R} _.
Arguments nr_parentObjectRecords {R} _.
Arguments nr_relations {R} _.
Arguments nr_limit {R} _.
Arguments nr_authContext {R} _.
Arguments nr_workspaceDataSource {R} _.
Arguments nr_roleId {R} _.
Arguments nr_shouldBypassPermissionChecks {R} _.

Definition map_event {R S : Type} (f : list R -> list S)
    (p : UpdateEventPayload R) : UpdateEventPayload S :=
  {| ev_existingRecords := f (ev_existingRecords p);
     ev_records := f (ev_records p);
     ev_updatedFields := ev_updatedFields p;
     ev_authContext := ev_authContext p;
     ev_objectMetadataItem := ev_objectMetadataItem p |}.

Definition map_nested {R S : Type} (f : list R -> list S)
    (a : NestedRelationsArgs R) : NestedRelationsArgs S :=
  {| nr_objectMetadataMaps := nr_objectMetadataMaps a;
     nr_parentObjectMetadataItem := nr_parentObjectMetadataItem a;
     nr_parentObjectRecords := f (nr_parentObjectRecords a);
     nr_relations := nr_relations a;
     nr_limit := nr_limit a;
     nr_authContext := nr_authContext a;
     nr_workspaceDataSource := nr_workspaceDataSource a;
     nr_roleId := nr_roleId a;
     nr_shouldBypassPermissionChecks := nr_shouldBypassPermissionChecks a |}.

(** ** Collaborators

    Everything the resolver imports or has injected.  A call that can throw
    returns [Exn + _]. *)
Class Platform : Type := {
  (** state of a TypeORM query builder instance *)
  QueryBuilder : Type;
  (** [repository.createQueryBuilder(alias)] *)
  createQueryBuilder : string -> QueryBuilder;
  (** [graphqlQueryParser.applyFilterToBuilder(builder, name, filter)]:
      the state the builder is left in *)
  applyFilterToBuilder :
    QueryBuilder -> string -> option ObjectRecordFilter -> Exn + QueryBuilder;
  (** [builder.getMany()]: what the store answers at the time of the read *)
  getMany : QueryBuilder -> Exn + list RawRow;
  (** [builder.update(data).returning('*').execute()]: the [raw] rows the
      store answers at the time of the write *)
  update_returning_execute : QueryBuilder -> JsObject -> Exn + list RawRow;
  computeTableName : string -> bool -> string;
  formatData : JsObject -> ObjectMetadataItemWithFieldMaps -> JsObject;
  (** [formatResult] on one row *)
  formatRow : RawRow -> ObjectMetadataItemWithFieldMaps -> JsVal -> ObjectRecord;
  getObjectMetadataFromObjectMetadataItemWithFieldMaps :
    ObjectMetadataItemWithFieldMaps -> JsVal;
  (** [apiEventEmitterService.emitUpdateEvents]: the emitter sees the
      contents of the records it is given and may throw *)
  emitUpdateEvents : UpdateEventPayload ObjectRecord -> option Exn;
  (** [processNestedRelationsHelper.processNestedRelations]: the contents it
      leaves in the parent records it was given, in their order, and what it
      throws if it does *)
  processNestedRelations :
    NestedRelationsArgs ObjectRecord -> list ObjectRecord * option Exn;
  (** [ObjectRecordsToGraphqlConnectionHelper(maps).processRecord] *)
  processRecord : JsVal -> ObjectRecord -> string -> Z -> Z -> JsVal;
  QUERY_MAX_RECORDS : Z;
  (** the syntax test inside [assertIsValidUuid] *)
  isValidUuid : string -> bool;
}.

(** ** The machine *)

Definition ref : Type := nat.

(** One entry per call that leaves the resolver.  The two outgoing calls
    are logged with the references they were given and with the contents
    those had when the call was made. *)
Inductive Event `{Platform} : Type :=
| EvCreateQueryBuilder (alias : string) (created : ref)
| EvClone (source created : ref)
| EvApplyFilter (builder : ref) (state : QueryBuilder) (name : string)
    (filter : option ObjectRecordFilter)
| EvGetMany (builder : ref) (state : QueryBuilder)
| EvUpdate (builder : ref) (state : QueryBuilder) (data : JsObject)
| EvEmitUpdateEvents (payload : UpdateEventPayload ref)
    (seen : UpdateEventPayload ObjectRecord)
| EvProcessNestedRelations (args : NestedRelationsArgs ref)
    (seen : NestedRelationsArgs ObjectRecord).

Record Machine `{Platform} : Type := {
  builders : list QueryBuilder;   (* query builder instances, by reference *)
  objects : list ObjectRecord;    (* record objects, by reference *)
  trace : list Event;             (* calls made so far, oldest first *)
}.

Definition initial `{Platform} : Machine :=
  {| builders := []; objects := []; trace := [] |}.

Section Resolver.

Context `{Platform}.

(** ** State and exceptions *)

Definition M (A : Type) : Type := Machine -> (Failure + A) * Machine.

Definition ret {A : Type} (a : A) : M A := fun m => (inr a, m).

Definition bind {A B : Type} (c : M A) (k : A -> M B) : M B :=
  fun m =>
    match c m with
    | (inl e, m') => (inl e, m')
    | (inr a, m') => k a m'
    end.

Definition throw {A : Type} (s : Stage) (e : Exn) : M A :=
  fun m => (inl (s, e), m).

Notation "x <- c ;; k" := (bind c (fun x => k))
  (at level 100, c at next level, right associativity).
Notation "c ;;; k" := (bind c (fun _ => k))
  (at level 100, right associativity).

(** A pure call that may throw, made in stage [s]. *)
Definition attempt {A : Type} (s : Stage) (r : Exn + A) : M A :=
  match r with
  | inl e => throw s e
  | inr a => ret a
  end.

Definition set_builders (bs : list QueryBuilder) (m : Machine) : Machine :=
  {| builders := bs; objects := objects m; trace := trace m |}.

Definition set_objects (os : list ObjectRecord) (m : Machine) : Machine :=
  {| builders := builders m; objects := os; trace := trace m |}.

Definition log_call (e : Event) (m : Machine) : Machine :=
  {| builders := builders m; objects := objects m; trace := trace m ++ [e] |}.

(** [arr.forEach(cb)] with a callback that may throw *)
Fixpoint forEach {A : Type} (cb : A -> M unit) (arr : list A) : M unit :=
  match arr with
  | [] => ret tt
  | x :: rest => cb x ;;; forEach cb rest
  end.

(** ** Query builder instances *)

Definition repository_createQueryBuilder (alias : string) : M ref :=
  fun m =>
    let r := length (builders m) in
    (inr r,
     log_call (EvCreateQueryBuilder alias r)
       (set_builders (builders m ++ [createQueryBuilder alias]) m)).

(** [builder.clone()]: a new instance with a copy of the state. *)
Definition builder_clone (s : Stage) (b : ref) : M ref :=
  fun m =>
    match builders m !! b with
    | None => (inl (s, TypeError), m)
    | Some q =>
        let r := length (builders m) in
        (inr r, log_call (EvClone b r) (set_builders (builders m ++ [q]) m))
    end.

(** The parser changes the builder it is given in place. *)
Definition parser_applyFilterToBuilder (s : Stage) (b : ref) (name : string)
    (filter : option ObjectRecordFilter) : M unit :=
  fun m =>
    match builders m !! b with
    | None => (inl (s, TypeError), m)
    | Some q =>
        let m1 := log_call (EvApplyFilter b q name filter) m in
        match applyFilterToBuilder q name filter with
        | inl e => (inl (s, e), m1)
        | inr q' => (inr tt, set_builders (<[b := q']> (builders m)) m1)
        end
    end.

Definition builder_getMany (s : Stage) (b : ref) : M (list RawRow) :=
  fun m =>
    match builders m !! b with
    | None => (inl (s, TypeError), m)
    | Some q =>
        let m1 := log_call (EvGetMany b q) m in
        match getMany q with
        | inl e => (inl (s, e), m1)
        | inr rows => (inr rows, m1)
        end
    end.

Definition builder_update_returning_execute (s : Stage) (b : ref)
    (data : JsObject) : M (list RawRow) :=
  fun m =>
    match builders m !! b with
    | None => (inl (s, TypeError), m)
    | Some q =>
        let m1 := log_call (EvUpdate b q data) m in
        match update_returning_execute q data with
        | inl e => (inl (s, e), m1)
        | inr rows => (inr rows, m1)
        end
    end.

(** ** Record objects *)

(** A reference the resolver holds always denotes an allocated object (see
    [alloc]); the default is for the others. *)
Definition deref (h : list ObjectRecord) (r : ref) : ObjectRecord :=
  default [] (h !! r).

Definition contents_of (h : list ObjectRecord) (rs : list ref) : list ObjectRecord :=
  map (deref h) rs.

Definition alloc (cs : list ObjectRecord) : M (list ref) :=
  fun m =>
    (inr (seq (length (objects m)) (length cs)),
     set_objects (objects m ++ cs) m).

Definition contents (rs : list ref) : M (list ObjectRecord) :=
  fun m => (inr (contents_of (objects m) rs), m).

(** Modelled from the spec: [formatResult] is imported.  The spec has it
    map the storage rows to canonical records, row by row; the array it
    returns holds new objects. *)
Definition formatResult (rows : list RawRow)
    (meta : ObjectMetadataItemWithFieldMaps) (maps : JsVal) : M (list ref) :=
  alloc (map (fun row => formatRow row meta maps) rows).

(** [structuredClone(arr)] on an array of records: a new array of new
    objects with the same contents. *)
Definition structuredClone (rs : list ref) : M (list ref) :=
  cs <- contents rs ;; alloc cs.

(** Writing [cs] over the objects [rs], pairwise. *)
Fixpoint store_all (rs : list ref) (cs : list ObjectRecord)
    (h : list ObjectRecord) : list ObjectRecord :=
  match rs, cs with
  | r :: rs', c :: cs' => store_all rs' cs' (<[r := c]> h)
  | _, _ => h
  end.

(** ** The two outgoing calls *)

Definition apiEventEmitterService_emitUpdateEvents
    (p : UpdateEventPayload ref) : M unit :=
  fun m =>
    let seen := map_event (contents_of (objects m)) p in
    let m1 := log_call (EvEmitUpdateEvents p seen) m in
    match emitUpdateEvents seen with
    | Some e => (inl (EmittingEvent, e), m1)
    | None => (inr tt, m1)
    end.

(** The hydrator attaches relation data to the parent records it was given,
    in place: it can reach those objects and no others. *)
Definition processNestedRelationsHelper_processNestedRelations
    (a : NestedRelationsArgs ref) : M unit :=
  fun m =>
    let seen := map_nested (contents_of (objects m)) a in
    let m1 := log_call (EvProcessNestedRelations a seen) m in
    let '(cs, thrown) := processNestedRelations seen in
    let m2 := set_objects (store_all (nr_parentObjectRecords a) cs (objects m)) m1 in
    match thrown with
    | Some e => (inl (HydratingRelations, e), m2)
    | None => (inr tt, m2)
    end.

(** ** [validate] *)

(** Modelled from the spec: [assertMutationNotOnRemoteObject] is imported;
    the spec has it fail with [MutationNotAllowed] on a remote object type. *)
Definition assertMutationNotOnRemoteObject
    (meta : ObjectMetadataItemWithFieldMaps) : Exn + unit :=
  if isRemote meta then inl MutationNotAllowed else inr tt.

(** Modelled from the spec: [assertIsValidUuid] is imported; the spec has it
    fail with [InvalidIdentifier] on a value that is not a valid
    identifier. *)
Definition assertIsValidUuid (value : string) : Exn + unit :=
  if isValidUuid value then inr tt else inl (InvalidIdentifier value).

(** The first value of [ids] that [assertIsValidUuid] rejects. *)
Definition first_invalid (ids : list string) : option string :=
  List.find (fun id => negb (isValidUuid id)) ids.

(** [args.filter.id?.in?.forEach((id) => assertIsValidUuid(id))] *)
Definition validateIdentifiers (filter : ObjectRecordFilter) : M unit :=
  match filter_id_in filter with
  | None => ret tt
  | Some ids => forEach (fun id => attempt Validating (assertIsValidUuid id)) ids
  end.

Definition validate (args : UpdateManyResolverArgs)
    (options : WorkspaceQueryRunnerOptions) : M unit :=
  attempt Validating
    (assertMutationNotOnRemoteObject (objectMetadataItemWithFieldMaps options)) ;;;
  match args_filter args with
  | None => throw Validating (Error "Filter is required")
  | Some filter => validateIdentifiers filter
  end.

(** ** [resolve] *)

Definition resolve (executionArgs : ExecutionArgs) : M (list JsVal) :=
  let options := ea_options executionArgs in
  let meta := objectMetadataItemWithFieldMaps options in
  let maps := objectMetadataMaps options in
  let roleId := ea_roleId executionArgs in
  queryBuilder <- repository_createQueryBuilder (nameSingular meta) ;;
  existingRecordsBuilder <- builder_clone SnapshottingExisting queryBuilder ;;
  parser_applyFilterToBuilder SnapshottingExisting existingRecordsBuilder
    (nameSingular meta) (args_filter (ea_args executionArgs)) ;;;
  existingRecords <- builder_getMany SnapshottingExisting existingRecordsBuilder ;;
  formattedExistingRecords <- formatResult existingRecords meta maps ;;
  if isEmpty formattedExistingRecords then
    throw SnapshottingExisting
      (GraphqlQueryRunnerException "Records not found" RECORD_NOT_FOUND)
  else
    let tableName := computeTableName (nameSingular meta) (isCustom meta) in
    parser_applyFilterToBuilder Mutating queryBuilder tableName
      (args_filter (ea_args executionArgs)) ;;;
    let data := formatData (args_data (ea_args executionArgs)) meta in
    nonFormattedUpdatedObjectRecords <-
      builder_update_returning_execute Mutating queryBuilder data ;;
    formattedUpdatedRecords <-
      formatResult nonFormattedUpdatedObjectRecords meta maps ;;
    clonedExisting <- structuredClone formattedExistingRecords ;;
    clonedUpdated <- structuredClone formattedUpdatedRecords ;;
    apiEventEmitterService_emitUpdateEvents
      {| ev_existingRecords := clonedExisting;
         ev_records := clonedUpdated;
         ev_updatedFields := Object_keys (args_data (ea_args executionArgs));
         ev_authContext := authContext options;
         ev_objectMetadataItem :=
           getObjectMetadataFromObjectMetadataItemWithFieldMaps meta |} ;;;
    (if truthy (ea_relations executionArgs) then
       processNestedRelationsHelper_processNestedRelations
         {| nr_objectMetadataMaps := maps;
            nr_parentObjectMetadataItem := meta;
            nr_parentObjectRecords :=
              formattedExistingRecords ++ formattedUpdatedRecords;
            nr_relations := ea_relations executionArgs;
            nr_limit := QUERY_MAX_RECORDS;
            nr_authContext := authContext options;
            nr_workspaceDataSource := ea_workspaceDataSource executionArgs;
            nr_roleId := roleId;
            nr_shouldBypassPermissionChecks :=
              ea_isExecutedByApiKey executionArgs |}
     else ret tt) ;;;
    records <- contents formattedUpdatedRecords ;;
    ret (map (fun record => processRecord maps record (nameSingular meta) 1 1)
           records).

(** Modelled from the spec: the base resolver service, which is not part of
    the file, runs the validator first and the pipeline of [resolve] after
    it (control flow of the spec: Validator, then Filter Translator, ...). *)
Definition execute (executionArgs : ExecutionArgs) : M (list JsVal) :=
  validate (ea_args executionArgs) (ea_options executionArgs) ;;;
  resolve executionArgs.

End Resolver.

Arguments M {_} A.

(** ** Observations on the log *)

Definition is_read `{Platform} (e : Event) : bool :=
  match e with EvGetMany _ _ => true | _ => false end.
Definition is_write `{Platform} (e : Event) : bool :=
  match e with EvUpdate _ _ _ => true | _ => false end.
Definition is_emit `{Platform} (e : Event) : bool :=
  match e with EvEmitUpdateEvents _ _ => true | _ => false end.
Definition is_hydrate `{Platform} (e : Event) : bool :=
  match e with EvProcessNestedRelations _ _ => true | _ => false end.

Definition calls `{Platform} (p : Event -> bool) (m : Machine) : list Event :=
  List.filter p (trace m).

(** ** A small platform to run the resolver on

    A store of three rows of one object type.  The builder state is the list
    of conditions applied so far; a condition selects the rows whose [id] is
    in the top-level [id.in] list of its filter, every row if there is none.
    Formatting is the identity, the hydrator attaches a [company] to every
    parent record, the connection helper wraps a record in an edge. *)
Module Toy.

Definition uuidA : string := "20202020-0000-4000-8000-00000000000a".
Definition uuidB : string := "20202020-0000-4000-8000-00000000000b".
Definition uuidC : string := "20202020-0000-4000-8000-00000000000c".

Definition row (id status : string) : RawRow :=
  [("id", JStr id); ("status", JStr status); ("position", JNum 1)].

Definition store : list RawRow :=
  [row uuidA "open"; row uuidB "open"; row uuidC "done"].

Definition is_hex (c : ascii) : bool :=
  let n := nat_of_ascii c in
  ((48 <=? n) && (n <=? 57) || (97 <=? n) && (n <=? 102)
   || (65 <=? n) && (n <=? 70))%nat.

Fixpoint uuid_shape (pos : nat) (s : string) : bool :=
  match s with
  | EmptyString => (pos =? 36)%nat
  | String c rest =>
      (if ((pos =? 8) || (pos =? 13) || (pos =? 18) || (pos =? 23))%nat
       then Ascii.eqb c "-"%char else is_hex c)
      && uuid_shape (S pos) rest
  end.

Definition row_id (r : RawRow) : option string :=
  match r with
  | ("id", JStr i) :: _ => Some i
  | _ => None
  end.

Definition selects (cond : string * option ObjectRecordFilter) (r : RawRow) : bool :=
  match cond.2 with
  | None => true
  | Some f =>
      match filter_id_in f, row_id r with
      | Some ids, Some i => existsb (String.eqb i) ids
      | Some _, None => false
      | None, _ => true
      end
  end.

Definition selected (q : list (string * option ObjectRecordFilter)) : list RawRow :=
  List.filter (fun r => forallb (fun cond => selects cond r) q) store.

Fixpoint assign (data : JsObject) (r : RawRow) : RawRow :=
  match r with
  | [] => []
  | (k, v) :: rest =>
      (k, match List.find (fun kv => String.eqb kv.1 k) data with
          | Some kv => kv.2
          | None => v
          end) :: assign data rest
  end.

#[export] Instance platform : Platform := {|
  QueryBuilder := list (string * option ObjectRecordFilter);
  createQueryBuilder := fun _ => [];
  applyFilterToBuilder := fun q name f => inr (q ++ [(name, f)]);
  getMany := fun q => inr (selected q);
  update_returning_execute := fun q data => inr (map (assign data) (selected q));
  computeTableName :=
    fun name custom => if custom then String.append "_" name else name;
  formatData := fun data _ => data;
  formatRow := fun r _ _ => r;
  getObjectMetadataFromObjectMetadataItemWithFieldMaps :=
    fun meta => JStr (nameSingular meta);
  emitUpdateEvents := fun _ => None;
  processNestedRelations :=
    fun a => (map (fun r => r ++ [("company", JStr "ACME")])
                (nr_parentObjectRecords a), None);
  processRecord :=
    fun _ r name take total =>
      JObj [("edges", JArr [JObj [("node", JObj r)]]);
            ("take", JNum take); ("totalCount", JNum total)];
  QUERY_MAX_RECORDS := 200;
  isValidUuid := uuid_shape 0;
|}.

Definition taskMeta : ObjectMetadataItemWithFieldMaps :=
  {| nameSingular := "task"; isCustom := false; isRemote := false;
     fieldMaps := JNull |}.

Definition remoteMeta : ObjectMetadataItemWithFieldMaps :=
  {| nameSingular := "task"; isCustom := false; isRemote := true;
     fieldMaps := JNull |}.


Definition options_for (meta : ObjectMetadataItemWithFieldMaps) :
    WorkspaceQueryRunnerOptions :=
  {| authContext := JStr "workspace-1";
     objectMetadataItemWithFieldMaps := meta;
     objectMetadataMaps := JNull |}.

Definition id_in (ids : list string) : ObjectRecordFilter :=
  RecordFilter
    (Some {| uuid_eq := None; uuid_in := Some ids; uuid_neq := None;
             uuid_is := None |})
    [] None None None.

Definition call (meta : ObjectMetadataItemWithFieldMaps)
    (filter : option ObjectRecordFilter) (data : JsObject)
    (relations : JsVal) : ExecutionArgs :=
  {| ea_args := {| args_filter := filter; args_data := data |};
     ea_options := options_for meta;
     ea_roleId := JStr "role-1";
     ea_relations := relations;
     ea_workspaceDataSource := JNull;
     ea_isExecutedByApiKey := false |}.

(** [{id: {in: [A, B]}}] with payload [{status: "done"}] *)
Definition close_two : ExecutionArgs :=
  call taskMeta (Some (id_in [uuidA; uuidB])) [("status", JStr "done")] JUndefined.

Definition close_two_with_relations : ExecutionArgs :=
  call taskMeta (Some (id_in [uuidA; uuidB])) [("status", JStr "done")]
    (JObj [("company", JBool true)]).

(** the same with [relations: {}], a selection that names no relation *)
Definition close_two_with_empty_selection : ExecutionArgs :=
  call taskMeta (Some (id_in [uuidA; uuidB])) [("status", JStr "done")]
    (JObj []).


(** [{id: {in: []}}] *)
Definition close_none : ExecutionArgs :=
  call taskMeta (Some (id_in [])) [("status", JStr "done")] JUndefined.

(** [{id: {in: [C]}}] with payload [{status: "done"}]: row C is done
    already *)
Definition close_done : ExecutionArgs :=
  call taskMeta (Some (id_in [uuidC])) [("status", JStr "done")] JUndefined.

(** no filter at all, on a writable and on a remote object type *)
Definition no_filter : ExecutionArgs :=
  call taskMeta None [("status", JStr "done")] JUndefined.

Definition no_filter_remote : ExecutionArgs :=
  call remoteMeta None [("status", JStr "done")] JUndefined.

(** [{id: {in: [A, "not-a-uuid"]}}] *)
Definition bad_id : ExecutionArgs :=
  call taskMeta (Some (id_in [uuidA; "not-a-uuid"])) [("status", JStr "done")]
    JUndefined.

(** [{and: [{id: {in: ["not-a-uuid"]}}]}] *)
Definition bad_id_under_and : ObjectRecordFilter :=
  RecordFilter None [] (Some [id_in ["not-a-uuid"]]) None None.

(** invalid identifiers everywhere but in the top-level [id.in] *)
Definition bad_ids_elsewhere : ObjectRecordFilter :=
  RecordFilter
    (Some {| uuid_eq := Some "not-a-uuid"; uuid_in := None;
             uuid_neq := Some "neither"; uuid_is := None |})
    [("companyId", JObj [("in", JArr [JStr "not-a-uuid"])])]
    (Some [id_in ["not-a-uuid"]])
    (Some [id_in ["not-a-uuid"]])
    (Some (id_in ["not-a-uuid"])).

End Toy.

(** ** Platforms on which something goes wrong

    [Toy.platform] with another store behind the update statement and
    another hydrator. *)
Module Faulty.

Definition with_update_and_hydrator
    (update : list (string * option ObjectRecordFilter) -> JsObject ->
              Exn + list RawRow)
    (hydrate : NestedRelationsArgs ObjectRecord ->
               list ObjectRecord * option Exn) : Platform := {|
  QueryBuilder := list (string * option ObjectRecordFilter);
  createQueryBuilder := @createQueryBuilder Toy.platform;
  applyFilterToBuilder := @applyFilterToBuilder Toy.platform;
  getMany := @getMany Toy.platform;
  update_returning_execute := update;
  computeTableName := @computeTableName Toy.platform;
  formatData := @formatData Toy.platform;
  formatRow := @formatRow Toy.platform;
  getObjectMetadataFromObjectMetadataItemWithFieldMaps :=
    @getObjectMetadataFromObjectMetadataItemWithFieldMaps Toy.platform;
  emitUpdateEvents := @emitUpdateEvents Toy.platform;
  processNestedRelations := hydrate;
  processRecord := @processRecord Toy.platform;
  QUERY_MAX_RECORDS := @QUERY_MAX_RECORDS Toy.platform;
  isValidUuid := @isValidUuid Toy.platform;
|}.


(** The hydrator attaches a [company] to the first parent record and then
    throws. *)
Definition hydrator_throws : Platform :=
  with_update_and_hydrator (@update_returning_execute Toy.platform)
    (fun a =>
       (map (fun r => r ++ [("company", JStr "ACME")])
          (take 1 (nr_parentObjectRecords a)),
        Some (Thrown (JStr "relation lookup failed")))).



End Faulty.

(** * The webhook form hook

    The functions [useWebhookForm] builds
    ([packages/twenty-front/src/modules/settings/developers/hooks/
    useWebhookForm.ts]): the helpers on the list of operations, what is
    loaded into the form, and the three handlers.  Constants and utilities
    the hook imports are variables of the sections. *)
Module WebhookForm.

(** What a property of a form value can hold at run time: a string, [null],
    or nothing ([undefined]). *)
Inductive Field : Type :=
| Undefined
| Null
| Str (s : string).

(** [WebhookOperationType] *)
Record Operation : Type := {
  op_object : Field;
  op_action : Field;
}.

(** [`${v}`] *)
Definition toStr (v : Field) : string :=
  match v with
  | Undefined => "undefined"
  | Null => "null"
  | Str s => s
  end.

(** [v || ''] *)
Definition or_empty (v : Field) : string :=
  match v with
  | Str s => s
  | Undefined | Null => ""
  end.

(** [op.object === '*' && op.action === '*'] *)
Definition is_wildcard (op : Operation) : bool :=
  match op_object op, op_action op with
  | Str o, Str a => String.eqb o "*" && String.eqb a "*"
  | _, _ => false
  end.

(** [op.object === null] *)
Definition object_is_null (op : Operation) : bool :=
  match op_object op with
  | Null => true
  | _ => false
  end.

(** [new Set(xs)] keeps the first occurrence of every string, in order;
    [add] is one insertion. *)
Definition Set_add (set : list string) (x : string) : list string :=
  if existsb (String.eqb x) set then set else set ++ [x].

Definition Array_from_Set (xs : list string) : list string :=
  fold_left Set_add xs [].

(** [s.split('.')]: never empty, [""] for the empty string. *)
Fixpoint split_dot (s : string) : list string :=
  match s with
  | EmptyString => [""]
  | String c rest =>
      if Ascii.eqb c "." then "" :: split_dot rest
      else match split_dot rest with
           | [] => [String c ""]
           | head :: tail => String c head :: tail
           end
  end.

(** [parts[i]] *)
Definition part (i : nat) (parts : list string) : Field :=
  match parts !! i with
  | Some s => Str s
  | None => Undefined
  end.

(** [const [object, action] = op.split('.'); return { object, action }] *)
Definition parse_operation (op : string) : Operation :=
  {| op_object := part 0 (split_dot op); op_action := part 1 (split_dot op) |}.

(** [`${op.object}.${op.action}`] *)
Definition format_operation (op : Operation) : string :=
  String.append (toStr (op_object op))
    (String.append "." (toStr (op_action op))).

(** [arr.filter((_, i) => keep(i))], from index [i] on *)
Fixpoint filter_index {A : Type} (keep : nat -> bool) (i : nat) (arr : list A) :
    list A :=
  match arr with
  | [] => []
  | x :: rest =>
      if keep i then x :: filter_index keep (S i) rest
      else filter_index keep (S i) rest
  end.

Inductive OperationField : Type := FObject | FAction.

(** [{ ...op, [field]: value }] *)
Definition set_field (op : Operation) (field : OperationField) (value : Field) :
    Operation :=
  match field with
  | FObject => {| op_object := value; op_action := op_action op |}
  | FAction => {| op_object := op_object op; op_action := value |}
  end.

(** An array that an assignment past its end has left with holes is a list
    of [option]s, [None] for a hole.  [Slot] is an element of what is handed
    on: a spread reads a hole as [undefined]. *)
Inductive Slot : Type :=
| Hole
| UndefinedElement
| Element (op : Operation).

(** the array itself *)
Definition kept (arr : list (option Operation)) : list Slot :=
  map (fun s => match s with Some op => Element op | None => Hole end) arr.

(** [[...arr]] *)
Definition spread (arr : list (option Operation)) : list Slot :=
  map (fun s => match s with Some op => Element op | None => UndefinedElement end)
    arr.

(** [arr.some(p)] does not visit holes. *)
Definition some_element (p : Operation -> bool) (arr : list (option Operation)) :
    bool :=
  existsb (fun s => match s with Some op => p op | None => false end) arr.

(** no ['.'] in [s] *)
Fixpoint dot_free (s : string) : bool :=
  match s with
  | EmptyString => true
  | String c rest => negb (Ascii.eqb c ".") && dot_free rest
  end.

(** The record a webhook is stored as, as far as the hook reads it. *)
Record WebhookData : Type := {
  wd_operations : option (list string);  (* [None]: null or undefined *)
  wd_operation : Field;
  wd_targetUrl : Field;
  wd_description : Field;
  wd_secret : Field;
}.

(** [WebhookFormValues] *)
Record FormValues : Type := {
  fv_targetUrl : string;
  fv_description : string;
  fv_operations : list Operation;
  fv_secret : string;
}.

Inductive WebhookFormMode : Type := Create | Edit.

Section Helpers.

(** [WEBHOOK_EMPTY_OPERATION] and [isDefined] are imported. *)
Variable WEBHOOK_EMPTY_OPERATION : Operation.
Variable isDefined : Field -> bool.

Definition addEmptyOperationIfNecessary (newOperations : list Operation) :
    list Operation :=
  if negb (existsb is_wildcard newOperations)
     && negb (existsb object_is_null newOperations)
  then newOperations ++ [WEBHOOK_EMPTY_OPERATION]
  else newOperations.

Definition cleanAndFormatOperations (operations : list Operation) : list string :=
  Array_from_Set
    (map format_operation
       (List.filter
          (fun op => isDefined (op_object op) && isDefined (op_action op))
          operations)).

(** [baseOperations] of [onCompleted]: the stored [operations] if there are
    any (an empty array counts), else the single legacy [operation] if it is
    a non-empty string, else nothing. *)
Definition baseOperations (data : WebhookData) : list Operation :=
  match wd_operations data with
  | Some operations => map parse_operation operations
  | None =>
      match wd_operation data with
      | Str op => if String.eqb op "" then [] else [parse_operation op]
      | Undefined | Null => []
      end
  end.


(** [removeOperation]: the operations given to [formConfig.setValue].  No
    row has the index when [index] is negative. *)
Definition removeOperation (index : Z) (currentOperations : list Operation) :
    list Operation :=
  addEmptyOperationIfNecessary
    (filter_index (fun i => negb (Z.of_nat i =? index)%Z) 0 currentOperations).

(** [newOperations[index] = { ...newOperations[index], [field]: value }] on
    the copy of the current operations: in range the row is replaced; past
    the end the array grows to [index + 1], with holes before the new row,
    which has the one field; a negative index sets no element. *)
Definition assign_operation (index : Z) (field : OperationField) (value : Field)
    (currentOperations : list Operation) : list (option Operation) :=
  if (index <? 0)%Z then map Some currentOperations
  else
    let i := Z.to_nat index in
    match currentOperations !! i with
    | Some op => map Some (<[i := set_field op field value]> currentOperations)
    | None =>
        map Some currentOperations
        ++ replicate (i - length currentOperations) None
        ++ [Some (set_field {| op_object := Undefined; op_action := Undefined |}
                    field value)]
    end.

(** [addEmptyOperationIfNecessary] on an array that may have holes *)
Definition addEmptyOperationIfNecessary_sparse
    (newOperations : list (option Operation)) : list Slot :=
  if negb (some_element is_wildcard newOperations)
     && negb (some_element object_is_null newOperations)
  then spread newOperations ++ [Element WEBHOOK_EMPTY_OPERATION]
  else kept newOperations.

(** [updateOperation]: the operations given to [formConfig.setValue]. *)
Definition updateOperation (index : Z) (field : OperationField) (value : Field)
    (currentOperations : list Operation) : list Slot :=
  addEmptyOperationIfNecessary_sparse
    (assign_operation index field value currentOperations).

(** [canSave] *)
Definition canSave (mode : WebhookFormMode) (isDirty isValid isSubmitting : bool) :
    bool :=
  match mode with
  | Create => isValid && negb isSubmitting
  | Edit => isDirty && isValid && negb isSubmitting
  end.

End Helpers.

(** ** The handlers *)

(** What a collaborator throws; [error instanceof ApolloError] tells the
    two apart. *)
Inductive Thrown : Type :=
| ApolloError (message : string)
| OtherError (message : string).

(** The messages under the [t] macro, with what is interpolated. *)
Inductive Message : Type :=
| WebhookCreatedSuccessfully (targetUrl : string)
| WebhookUpdatedSuccessfully (targetUrl : string)
| WebhookDeletedSuccessfully
| WebhookIdRequiredForUpdates
| WebhookIdRequiredForDeletion.

Inductive SettingsPath : Type := WebhookDetail | Webhooks.

(** [webhookData] *)
Record WebhookInput : Type := {
  wi_targetUrl : string;
  wi_operations : list string;
  wi_description : string;
  wi_secret : string;
}.

(** What [createOneRecord] resolves to, when it is a record. *)
Record CreatedWebhook : Type := {
  cw_id : string;
  cw_targetUrl : Field;
}.

(** One entry per call the handlers make. *)
Inductive Call : Type :=
| CreateOneRecord (id : string) (input : WebhookInput)
| UpdateOneRecord (idToUpdate : string) (updateOneRecordInput : WebhookInput)
| DeleteOneRecord (id : string)
| EnqueueSuccessSnackBar (message : Message)
| EnqueueErrorSnackBar (message : option Message) (apolloError : option Thrown)
| Navigate (path : SettingsPath) (webhookId : option string)
| FormReset (values : FormValues).

(** the calls that go to the server *)
Definition is_request (c : Call) : bool :=
  match c with
  | CreateOneRecord _ _ | UpdateOneRecord _ _ | DeleteOneRecord _ => true
  | _ => false
  end.

Definition is_error_snackbar (c : Call) : bool :=
  match c with
  | EnqueueErrorSnackBar _ _ => true
  | _ => false
  end.

(** [!webhookId]: missing or the empty string *)
Definition id_missing (webhookId : option string) : bool :=
  match webhookId with
  | None => true
  | Some id => String.eqb id ""
  end.

(** [error instanceof ApolloError ? error : undefined] *)
Definition apollo_only (error : Thrown) : option Thrown :=
  match error with
  | ApolloError _ => Some error
  | OtherError _ => None
  end.

Section Handlers.

Variable WEBHOOK_EMPTY_OPERATION : Operation.
Variable isDefined : Field -> bool.
(** [String.prototype.trim] and [v4()] *)
Variable trim : string -> string.
Variable v4 : string.
(** What the collaborators answer: whether a call throws, and the record
    [createOneRecord] resolves to when it does not. *)
Variable throws : Call -> option Thrown.
Variable created : string -> WebhookInput -> option CreatedWebhook.

(** A handler appends to the log of calls and ends normally or with what
    was thrown. *)
Definition H (A : Type) : Type := list Call -> (Thrown + A) * list Call.

Definition hret {A : Type} (a : A) : H A := fun log => (inr a, log).

Definition hbind {A B : Type} (c : H A) (k : A -> H B) : H B :=
  fun log =>
    match c log with
    | (inl e, log') => (inl e, log')
    | (inr a, log') => k a log'
    end.

(** [try { body } catch (error) { handler(error) }] *)
Definition try_catch (body : H unit) (handler : Thrown -> H unit) : H unit :=
  fun log =>
    match body log with
    | (inl error, log') => handler error log'
    | (inr tt, log') => (inr tt, log')
    end.

Definition call (c : Call) : H unit :=
  fun log =>
    match throws c with
    | Some e => (inl e, log ++ [c])
    | None => (inr tt, log ++ [c])
    end.

Definition createOneRecord (id : string) (input : WebhookInput) :
    H (option CreatedWebhook) :=
  hbind (call (CreateOneRecord id input)) (fun _ => hret (created id input)).

Definition webhookData (formValues : FormValues) : WebhookInput :=
  {| wi_targetUrl := trim (fv_targetUrl formValues);
     wi_operations := cleanAndFormatOperations isDefined (fv_operations formValues);
     wi_description := fv_description formValues;
     wi_secret := fv_secret formValues |}.

Definition report (error : Thrown) : H unit :=
  call (EnqueueErrorSnackBar None (apollo_only error)).

Definition handleCreate (formValues : FormValues) : H unit :=
  try_catch
    (hbind (createOneRecord v4 (webhookData formValues)) (fun createdWebhook =>
     let targetUrl :=
       match createdWebhook with
       | Some w => or_empty (cw_targetUrl w)
       | None => ""
       end in
     hbind (call (EnqueueSuccessSnackBar (WebhookCreatedSuccessfully targetUrl)))
       (fun _ =>
     call (match createdWebhook with
           | Some w => Navigate WebhookDetail (Some (cw_id w))
           | None => Navigate Webhooks None
           end))))
    report.

Definition handleUpdate (webhookId : option string) (formValues : FormValues) :
    H unit :=
  match webhookId with
  | Some id =>
      if String.eqb id "" then
        call (EnqueueErrorSnackBar (Some WebhookIdRequiredForUpdates) None)
      else
        try_catch
          (hbind (call (UpdateOneRecord id (webhookData formValues))) (fun _ =>
           hbind (call (FormReset formValues)) (fun _ =>
           call (EnqueueSuccessSnackBar
                   (WebhookUpdatedSuccessfully
                      (wi_targetUrl (webhookData formValues)))))))
          report
  | None => call (EnqueueErrorSnackBar (Some WebhookIdRequiredForUpdates) None)
  end.

Definition handleSave (mode : WebhookFormMode) (webhookId : option string)
    (formValues : FormValues) : H unit :=
  match mode with
  | Create => handleCreate formValues
  | Edit => handleUpdate webhookId formValues
  end.

Definition deleteWebhook (webhookId : option string) : H unit :=
  match webhookId with
  | Some id =>
      if String.eqb id "" then
        call (EnqueueErrorSnackBar (Some WebhookIdRequiredForDeletion) None)
      else
        try_catch
          (hbind (call (DeleteOneRecord id)) (fun _ =>
           hbind (call (EnqueueSuccessSnackBar WebhookDeletedSuccessfully)) (fun _ =>
           call (Navigate Webhooks None))))
          report
  | None => call (EnqueueErrorSnackBar (Some WebhookIdRequiredForDeletion) None)
  end.

End Handlers.

(** ** Values to run the hook on

    An empty operation with no object and any action, and the test that
    tells strings from [null] and [undefined], in place of the imported
    ones. *)
Definition sample_empty_operation : Operation :=
  {| op_object := Null; op_action := Str "*" |}.

Definition sample_isDefined (v : Field) : bool :=
  match v with
  | Str _ => true
  | Undefined | Null => false
  end.

Definition operation (object action : string) : Operation :=
  {| op_object := Str object; op_action := Str action |}.

Definition sample_operations : list Operation :=
  [operation "person" "created"; operation "company" "*"].

Definition sample_form : FormValues :=
  {| fv_targetUrl := " https://example.com/hook ";
     fv_description := "notify";
     fv_operations :=
       [operation "person" "created"; operation "person" "created";
        sample_empty_operation];
     fv_secret := "s3cret" |}.

(** [trim], for strings padded with spaces *)
Fixpoint trim_start (s : string) : string :=
  match s with
  | String " "%char rest => trim_start rest
  | _ => s
  end.

Definition sample_trim (s : string) : string :=
  String.rev (trim_start (String.rev (trim_start s))).

(** a server that throws on every request, and one that answers *)
Definition server_down (c : Call) : option Thrown :=
  match c with
  | CreateOneRecord _ _ | UpdateOneRecord _ _ | DeleteOneRecord _ =>
      Some (ApolloError "network")
  | _ => None
  end.

Definition server_up (c : Call) : option Thrown := None.

(** a server that is down under a snack bar that throws as well *)
Definition snackbar_down (c : Call) : option Thrown :=
  match c with
  | EnqueueErrorSnackBar _ _ => Some (OtherError "unmounted")
  | _ => server_down c
  end.

Definition echo (id : string) (input : WebhookInput) : option CreatedWebhook :=
  Some {| cw_id := id; cw_targetUrl := Str (wi_targetUrl input) |}.

End WebhookForm.

(** * Lemmas *)

Arguments contents_of : simpl never.

(** [ObjectRecord], [RawRow] and [ref] are names for list and number types;
    [lia] wants them unfolded. *)
Ltac heap_lia :=
  unfold ObjectRecord, RawRow, JsObject, ref in *; cbn [length] in *; lia.

(** ** Record objects and references *)

Section Heap.

Context `{Platform}.

Lemma deref_app_l (h h' : list ObjectRecord) (r : ref) :
  (r < length h)%nat -> deref (h ++ h') r = deref h r.
Proof. intros Hr. unfold deref. now rewrite lookup_app_l. Qed.

Lemma length_contents_of (h : list ObjectRecord) (rs : list ref) :
  length (contents_of h rs) = length rs.
Proof. apply length_map. Qed.

Lemma contents_of_app (h : list ObjectRecord) (rs rs' : list ref) :
  contents_of h (rs ++ rs') = contents_of h rs ++ contents_of h rs'.
Proof. apply map_app. Qed.

(** The objects just allocated hold what they were allocated with. *)
Lemma contents_of_alloc (h cs : list ObjectRecord) :
  contents_of (h ++ cs) (seq (length h) (length cs)) = cs.
Proof.
  revert h. induction cs as [|c cs IH]; intros h; [reflexivity|].
  cbn [length seq]. unfold contents_of in *. cbn [map]. f_equal.
  - unfold deref. now rewrite list_lookup_middle.
  - specialize (IH (h ++ [c])).
    rewrite <- app_assoc, length_app, Nat.add_1_r in IH. exact IH.
Qed.

(** Later allocations do not change what a reference denotes. *)
Lemma contents_of_weaken (h h' : list ObjectRecord) (rs : list ref) :
  (forall r, In r rs -> (r < length h)%nat) ->
  contents_of (h ++ h') rs = contents_of h rs.
Proof.
  intros Hrs. unfold contents_of. apply map_ext_in.
  intros r Hr. apply deref_app_l. now apply Hrs.
Qed.

Lemma contents_of_middle (h cs h' : list ObjectRecord) :
  contents_of ((h ++ cs) ++ h') (seq (length h) (length cs)) = cs.
Proof.
  rewrite contents_of_weaken; [apply contents_of_alloc|].
  intros r Hr. apply in_seq in Hr. rewrite length_app. lia.
Qed.

Lemma contents_of_prefix (cs h' : list ObjectRecord) :
  contents_of (cs ++ h') (seq 0 (length cs)) = cs.
Proof. apply (contents_of_middle [] cs h'). Qed.

Lemma contents_of_updated (ex up h' h'' : list ObjectRecord) :
  contents_of (((ex ++ up) ++ h') ++ h'') (seq (length ex) (length up)) = up.
Proof.
  rewrite contents_of_weaken; [apply contents_of_middle|].
  intros r Hr. apply in_seq in Hr. rewrite !length_app. lia.
Qed.

Lemma contents_of_working (ex up h' h'' : list ObjectRecord) :
  contents_of (((ex ++ up) ++ h') ++ h'')
    (seq 0 (length ex) ++ seq (length ex) (length up)) = ex ++ up.
Proof.
  rewrite contents_of_app, contents_of_updated. f_equal.
  rewrite <- !app_assoc. apply contents_of_prefix.
Qed.

Lemma isEmpty_seq {A : Type} (a : nat) (l : list A) :
  isEmpty (seq a (length l)) = isEmpty l.
Proof. now destruct l. Qed.

Lemma isEmpty_map {A B : Type} (f : A -> B) (l : list A) :
  isEmpty (map f l) = isEmpty l.
Proof. now destruct l. Qed.

Lemma deref_insert_ne (h : list ObjectRecord) (i j : ref) (c : ObjectRecord) :
  i <> j -> deref (<[i := c]> h) j = deref h j.
Proof. intros Hne. unfold deref. now rewrite list_lookup_insert_ne. Qed.

Lemma deref_insert_eq (h : list ObjectRecord) (i : ref) (c : ObjectRecord) :
  (i < length h)%nat -> deref (<[i := c]> h) i = c.
Proof. intros Hi. unfold deref. now rewrite list_lookup_insert_eq. Qed.

Lemma deref_store_all_frame (ws : list ref) (cs h : list ObjectRecord) (r : ref) :
  ~ In r ws -> deref (store_all ws cs h) r = deref h r.
Proof.
  revert cs h. induction ws as [|w ws IH]; intros cs h Hr; [reflexivity|].
  destruct cs as [|c cs]; [reflexivity|]. cbn [store_all].
  rewrite IH by (intros Hin; apply Hr; now right).
  apply deref_insert_ne. intros ->. apply Hr. now left.
Qed.

(** Writing to some objects leaves the contents of all others as they
    were. *)
Lemma contents_of_store_all_frame (ws rs : list ref) (cs h : list ObjectRecord) :
  (forall r, In r rs -> ~ In r ws) ->
  contents_of (store_all ws cs h) rs = contents_of h rs.
Proof.
  intros Hdisj. unfold contents_of. apply map_ext_in.
  intros r Hr. apply deref_store_all_frame. now apply Hdisj.
Qed.

Lemma length_store_all (ws : list ref) (cs h : list ObjectRecord) :
  length (store_all ws cs h) = length h.
Proof.
  revert cs h. induction ws as [|w ws IH]; intros cs h; [reflexivity|].
  destruct cs as [|c cs]; [reflexivity|]. cbn [store_all].
  now rewrite IH, length_insert.
Qed.

(** After writing [cs] over the objects [a, a+1, ...], object [j] holds its
    share of [cs] if [cs] is long enough, and what it held before if not. *)
Lemma deref_store_all_seq (a n : nat) (cs h : list ObjectRecord) (j : ref) :
  (a + n <= length h)%nat -> (a <= j < a + n)%nat ->
  deref (store_all (seq a n) cs h) j = default (deref h j) (cs !! (j - a)%nat).
Proof.
  revert a cs h. induction n as [|n IH]; intros a cs h Hlen Hj; [lia|].
  cbn [seq]. destruct cs as [|c cs]; [reflexivity|]. cbn [store_all].
  destruct (decide (j = a)) as [->|Hne].
  - rewrite deref_store_all_frame by (rewrite in_seq; heap_lia).
    rewrite Nat.sub_diag. cbn. apply deref_insert_eq. heap_lia.
  - rewrite IH by (rewrite ?length_insert; heap_lia).
    replace (j - a)%nat with (S (j - S a)) by heap_lia. cbn.
    rewrite deref_insert_ne by heap_lia. reflexivity.
Qed.

Lemma seq_working (n k : nat) : seq 0 n ++ seq n k = seq 0 (n + k).
Proof. now rewrite seq_app. Qed.

Lemma lookup_map {A B : Type} (f : A -> B) (l : list A) (i : nat) :
  map f l !! i = f <$> l !! i.
Proof.
  revert i. induction l as [|x l IH]; intros [|i]; cbn; auto.
Qed.

Lemma lookup_contents_of (h : list ObjectRecord) (a n i : nat) :
  (i < n)%nat -> contents_of h (seq a n) !! i = Some (deref h (a + i)).
Proof.
  intros Hi. unfold contents_of. rewrite lookup_map.
  now rewrite lookup_seq_lt.
Qed.

(** The copies handed to the emitter lie behind the working records in the
    store: writes to working records do not reach them. *)
Lemma copies_intact (ex up : list ObjectRecord) (ws1 ws2 : list ref)
    (cs1 cs2 : list ObjectRecord) :
  (forall r, In r ws1 -> (r < length (ex ++ up))%nat) ->
  (forall r, In r ws2 -> (r < length (ex ++ up))%nat) ->
  let heap := store_all ws2 cs2 (store_all ws1 cs1 (((ex ++ up) ++ ex) ++ up)) in
  contents_of heap (seq (length (ex ++ up)) (length ex)) = ex
  /\ contents_of heap (seq (length ((ex ++ up) ++ ex)) (length up)) = up.
Proof.
  intros H1 H2 heap. subst heap. split.
  - rewrite !contents_of_store_all_frame.
    + apply contents_of_middle.
    + intros r Hr Hw. apply in_seq in Hr. apply H1 in Hw. heap_lia.
    + intros r Hr Hw. apply in_seq in Hr. apply H2 in Hw. heap_lia.
  - rewrite !contents_of_store_all_frame.
    + apply contents_of_alloc.
    + intros r Hr Hw. apply in_seq in Hr. apply H1 in Hw.
      rewrite length_app in Hr. heap_lia.
    + intros r Hr Hw. apply in_seq in Hr. apply H2 in Hw.
      rewrite length_app in Hr. heap_lia.
Qed.

End Heap.

(** ** The validator *)

Section Validation.

Context `{Platform}.

Lemma forEach_assertIsValidUuid (ids : list string) (m : Machine) :
  forEach (fun id => attempt Validating (assertIsValidUuid id)) ids m =
  match first_invalid ids with
  | Some bad => (inl (Validating, InvalidIdentifier bad), m)
  | None => (inr tt, m)
  end.
Proof.
  induction ids as [|id ids IH]; [reflexivity|].
  unfold first_invalid in *. cbn [forEach List.find].
  unfold bind at 1, assertIsValidUuid at 1.
  destruct (isValidUuid id); cbn; [apply IH | reflexivity].
Qed.

Lemma first_invalid_Some (ids : list string) (bad : string) :
  first_invalid ids = Some bad -> In bad ids /\ isValidUuid bad = false.
Proof.
  intros Hf. apply find_some in Hf as [Hin Hb].
  split; [exact Hin|]. now destruct (isValidUuid bad).
Qed.

Lemma first_invalid_None (ids : list string) :
  first_invalid ids = None <-> (forall id, In id ids -> isValidUuid id = true).
Proof.
  split.
  - intros Hf id Hin. pose proof (find_none _ _ Hf id Hin) as Hn.
    cbn in Hn. now destruct (isValidUuid id).
  - intros Hall. unfold first_invalid.
    induction ids as [|id ids IH]; [reflexivity|]. cbn.
    rewrite (Hall id (or_introl eq_refl)). cbn.
    apply IH. intros x Hx. apply Hall. now right.
Qed.

Lemma first_invalid_exists (ids : list string) (id : string) :
  In id ids -> isValidUuid id = false -> exists bad, first_invalid ids = Some bad.
Proof.
  intros Hin Hbad. destruct (first_invalid ids) as [bad|] eqn:Hf; [eauto|].
  rewrite first_invalid_None in Hf. rewrite (Hf id Hin) in Hbad. discriminate.
Qed.

(** [validate] touches neither store and makes no call. *)
Lemma validate_machine (args : UpdateManyResolverArgs)
    (options : WorkspaceQueryRunnerOptions) (m : Machine) :
  (validate args options m).2 = m.
Proof.
  unfold validate, bind, attempt, assertMutationNotOnRemoteObject.
  destruct (isRemote _); cbn; [reflexivity|].
  destruct (args_filter args) as [f|]; [|reflexivity].
  unfold validateIdentifiers. destruct (filter_id_in f) as [ids|]; [|reflexivity].
  rewrite forEach_assertIsValidUuid. now destruct (first_invalid ids).
Qed.

Lemma validate_writable (args : UpdateManyResolverArgs)
    (options : WorkspaceQueryRunnerOptions) (f : ObjectRecordFilter) (m : Machine) :
  isRemote (objectMetadataItemWithFieldMaps options) = false ->
  args_filter args = Some f ->
  validate args options m = validateIdentifiers f m.
Proof.
  intros Hr Hf. unfold validate, bind, attempt, assertMutationNotOnRemoteObject.
  now rewrite Hr, Hf.
Qed.

Lemma validate_remote (args : UpdateManyResolverArgs)
    (options : WorkspaceQueryRunnerOptions) (m : Machine) :
  isRemote (objectMetadataItemWithFieldMaps options) = true ->
  validate args options m = (inl (Validating, MutationNotAllowed), m).
Proof.
  intros Hr. unfold validate, bind, attempt, assertMutationNotOnRemoteObject.
  now rewrite Hr.
Qed.

Lemma validate_cases (args : UpdateManyResolverArgs)
    (options : WorkspaceQueryRunnerOptions) (m : Machine) :
  validate args options m = (inr tt, m)
  \/ exists e, validate args options m = (inl (Validating, e), m).
Proof.
  unfold validate, bind, attempt, assertMutationNotOnRemoteObject.
  destruct (isRemote _); cbn; [right; eauto|].
  destruct (args_filter args) as [f|]; [|right; eauto].
  unfold validateIdentifiers. destruct (filter_id_in f) as [ids|]; [|now left].
  rewrite forEach_assertIsValidUuid.
  destruct (first_invalid ids); [right; eauto | now left].
Qed.

(** A failed validation ends the call: [resolve] is not entered. *)
Lemma execute_validation_failure (ea : ExecutionArgs) (e : Failure) (m : Machine) :
  validate (ea_args ea) (ea_options ea) m = (inl e, m) ->
  execute ea m = (inl e, m).
Proof. intros Hv. unfold execute, bind. now rewrite Hv. Qed.

Lemma execute_validation_success (ea : ExecutionArgs) (m : Machine) :
  validate (ea_args ea) (ea_options ea) m = (inr tt, m) ->
  execute ea m = resolve ea m.
Proof. intros Hv. unfold execute, bind. now rewrite Hv. Qed.

(** [execute] is [resolve] behind the validator. *)
Lemma execute_cases (ea : ExecutionArgs) :
  execute ea initial = resolve ea initial
  \/ exists e, execute ea initial = (inl (Validating, e), initial).
Proof.
  destruct (validate_cases (ea_args ea) (ea_options ea) initial) as [Hv|[e Hv]].
  - left. now apply execute_validation_success.
  - right. exists e. now apply execute_validation_failure.
Qed.

End Validation.

(** ** Runs of the resolver *)

Section Runs.

Context `{Platform}.

Ltac unfold_calls :=
  unfold bind, repository_createQueryBuilder, builder_clone,
    parser_applyFilterToBuilder, builder_getMany,
    builder_update_returning_execute, formatResult, structuredClone, alloc,
    contents, throw, ret, apiEventEmitterService_emitUpdateEvents,
    processNestedRelationsHelper_processNestedRelations, log_call,
    set_builders, set_objects, map_event, map_nested.

(** [resolve] run to the end, as a decision tree over what the
    collaborators answer. *)
Lemma resolve_initial (ea : ExecutionArgs) :
  let options := ea_options ea in
  let meta := objectMetadataItemWithFieldMaps options in
  let maps := objectMetadataMaps options in
  let name := nameSingular meta in
  let filter := args_filter (ea_args ea) in
  let base := createQueryBuilder name in
  let table := computeTableName name (isCustom meta) in
  let data := formatData (args_data (ea_args ea)) meta in
  let fmt := fun row => formatRow row meta maps in
  let wrap := fun r => processRecord maps r name 1 1 in
  let t1 := [EvCreateQueryBuilder name 0; EvClone 0 1;
             EvApplyFilter 1 base name filter] in
  resolve ea initial =
  match applyFilterToBuilder base name filter with
  | inl e =>
      (inl (SnapshottingExisting, e),
       {| builders := [base; base]; objects := []; trace := t1 |})
  | inr q1 =>
    let t2 := t1 ++ [EvGetMany 1 q1] in
    match getMany q1 with
    | inl e =>
        (inl (SnapshottingExisting, e),
         {| builders := [base; q1]; objects := []; trace := t2 |})
    | inr rows =>
      let ex := map fmt rows in
      if isEmpty rows then
        (inl (SnapshottingExisting,
              GraphqlQueryRunnerException "Records not found" RECORD_NOT_FOUND),
         {| builders := [base; q1]; objects := ex; trace := t2 |})
      else
        let t3 := t2 ++ [EvApplyFilter 0 base table filter] in
        match applyFilterToBuilder base table filter with
        | inl e =>
            (inl (Mutating, e),
             {| builders := [base; q1]; objects := ex; trace := t3 |})
        | inr q0 =>
          let t4 := t3 ++ [EvUpdate 0 q0 data] in
          match update_returning_execute q0 data with
          | inl e =>
              (inl (Mutating, e),
               {| builders := [q0; q1]; objects := ex; trace := t4 |})
          | inr raws =>
            let up := map fmt raws in
            let existingRefs := seq 0 (length ex) in
            let updatedRefs := seq (length ex) (length up) in
            let heap := ((ex ++ up) ++ ex) ++ up in
            let event (R : Type) (e u : list R) :=
              {| ev_existingRecords := e;
                 ev_records := u;
                 ev_updatedFields := Object_keys (args_data (ea_args ea));
                 ev_authContext := authContext options;
                 ev_objectMetadataItem :=
                   getObjectMetadataFromObjectMetadataItemWithFieldMaps meta |} in
            let t5 :=
              t4 ++ [EvEmitUpdateEvents
                       (event ref (seq (length (ex ++ up)) (length ex))
                          (seq (length ((ex ++ up) ++ ex)) (length up)))
                       (event ObjectRecord ex up)] in
            match emitUpdateEvents (event ObjectRecord ex up) with
            | Some e =>
                (inl (EmittingEvent, e),
                 {| builders := [q0; q1]; objects := heap; trace := t5 |})
            | None =>
              if truthy (ea_relations ea) then
                let args (R : Type) (parents : list R) :=
                  {| nr_objectMetadataMaps := maps;
                     nr_parentObjectMetadataItem := meta;
                     nr_parentObjectRecords := parents;
                     nr_relations := ea_relations ea;
                     nr_limit := QUERY_MAX_RECORDS;
                     nr_authContext := authContext options;
                     nr_workspaceDataSource := ea_workspaceDataSource ea;
                     nr_roleId := ea_roleId ea;
                     nr_shouldBypassPermissionChecks :=
                       ea_isExecutedByApiKey ea |} in
                let answer :=
                  processNestedRelations (args ObjectRecord (ex ++ up)) in
                let heap' :=
                  store_all (existingRefs ++ updatedRefs) answer.1 heap in
                let m :=
                  {| builders := [q0; q1]; objects := heap';
                     trace := t5 ++ [EvProcessNestedRelations
                                       (args ref (existingRefs ++ updatedRefs))
                                       (args ObjectRecord (ex ++ up))] |} in
                match answer.2 with
                | Some e => (inl (HydratingRelations, e), m)
                | None => (inr (map wrap (contents_of heap' updatedRefs)), m)
                end
              else
                (inr (map wrap up),
                 {| builders := [q0; q1]; objects := heap; trace := t5 |})
            end
          end
        end
    end
  end.
Proof.
  cbv zeta. unfold resolve. unfold_calls. cbn.
  destruct (applyFilterToBuilder _ _ _) as [e|q1]; [reflexivity|].
  cbn. destruct (getMany q1) as [e|rows]; [reflexivity|].
  cbn. rewrite isEmpty_seq, isEmpty_map.
  destruct (isEmpty rows); [reflexivity|].
  cbn. destruct (applyFilterToBuilder _ _ _) as [e|q0]; [reflexivity|].
  cbn. destruct (update_returning_execute q0 _) as [e|raws]; [reflexivity|].
  cbn.
  set (ex := map _ rows). set (up := map _ raws).
  rewrite !contents_of_prefix. rewrite !contents_of_middle.
  rewrite !(contents_of_alloc ((ex ++ up) ++ ex) up).
  destruct (emitUpdateEvents _) as [e|]; [reflexivity|].
  cbn. destruct (truthy (ea_relations ea)).
  - cbn. rewrite contents_of_working.
    destruct (processNestedRelations _) as [cs [e|]]; reflexivity.
  - cbn. now rewrite contents_of_updated.
Qed.

End Runs.

(** Case analysis on a run, by what the collaborators answered. *)
Ltac resolve_cases :=
  rewrite resolve_initial; cbv zeta;
  repeat match goal with
    | |- context [match applyFilterToBuilder ?q ?n ?f with _ => _ end] =>
        destruct (applyFilterToBuilder q n f) eqn:?
    | |- context [match getMany ?q with _ => _ end] =>
        destruct (getMany q) eqn:?
    | |- context [if isEmpty ?l then _ else _] =>
        destruct (isEmpty l) eqn:?
    | |- context [match update_returning_execute ?q ?d with _ => _ end] =>
        destruct (update_returning_execute q d) eqn:?
    | |- context [match emitUpdateEvents ?p with _ => _ end] =>
        destruct (emitUpdateEvents p) eqn:?
    | |- context [if truthy ?v then _ else _] =>
        destruct (truthy v) eqn:?
    | |- context [match (processNestedRelations ?a).2 with _ => _ end] =>
        destruct (processNestedRelations a) as [? [?|]] eqn:?; cbn [fst snd]
    end.

(** Which entry of a known log a given call is. *)
Ltac in_trace :=
  repeat match goal with
    | Hin : In _ _ |- _ => cbn in Hin
    | Hin : _ \/ _ |- _ => destruct Hin as [Hin|Hin]; [try discriminate Hin|]
    | Hin : False |- _ => destruct Hin
    end.

Section Inversion.

Context `{Platform}.

Lemma in_calls (p : Event -> bool) (e : Event) (m : Machine) :
  In e (trace m) -> p e = true -> In e (calls p m).
Proof. intros Hin Hp. unfold calls. apply filter_In. now split. Qed.

Lemma calls_nil_or_in (p : Event -> bool) (m : Machine) :
  calls p m = [] \/ exists e, In e (trace m) /\ p e = true.
Proof.
  unfold calls. destruct (List.filter p (trace m)) as [|e l] eqn:Hf; [now left|].
  right. exists e. apply filter_In. rewrite Hf. now left.
Qed.

(** What a run that reached the emitter looks like. *)
Lemma resolve_emitted (ea : ExecutionArgs)
    (payload : UpdateEventPayload ref) (seen : UpdateEventPayload ObjectRecord) :
  let options := ea_options ea in
  let meta := objectMetadataItemWithFieldMaps options in
  let maps := objectMetadataMaps options in
  let data := formatData (args_data (ea_args ea)) meta in
  let fmt := fun row => formatRow row meta maps in
  let res := (resolve ea initial).1 in
  let m := (resolve ea initial).2 in
  In (EvEmitUpdateEvents payload seen) (trace m) ->
  exists q1 rows q0 raws,
    let ex := map fmt rows in
    let up := map fmt raws in
    let heap := ((ex ++ up) ++ ex) ++ up in
    let event (R : Type) (e u : list R) :=
      {| ev_existingRecords := e;
         ev_records := u;
         ev_updatedFields := Object_keys (args_data (ea_args ea));
         ev_authContext := authContext options;
         ev_objectMetadataItem :=
           getObjectMetadataFromObjectMetadataItemWithFieldMaps meta |} in
    let args (R : Type) (parents : list R) :=
      {| nr_objectMetadataMaps := maps;
         nr_parentObjectMetadataItem := meta;
         nr_parentObjectRecords := parents;
         nr_relations := ea_relations ea;
         nr_limit := QUERY_MAX_RECORDS;
         nr_authContext := authContext options;
         nr_workspaceDataSource := ea_workspaceDataSource ea;
         nr_roleId := ea_roleId ea;
         nr_shouldBypassPermissionChecks := ea_isExecutedByApiKey ea |} in
    getMany q1 = inr rows
    /\ update_returning_execute q0 data = inr raws
    /\ In (EvGetMany 1 q1) (trace m)
    /\ In (EvUpdate 0 q0 data) (trace m)
    /\ payload = event ref (seq (length (ex ++ up)) (length ex))
                   (seq (length ((ex ++ up) ++ ex)) (length up))
    /\ seen = event ObjectRecord ex up
    /\ calls is_emit m = [EvEmitUpdateEvents payload seen]
    /\ (forall out, res = inr out ->
          out = map (fun r => processRecord maps r (nameSingular meta) 1 1)
                  (contents_of (objects m) (seq (length ex) (length up))))
    /\ ((objects m = heap /\ calls is_hydrate m = []
         /\ (truthy (ea_relations ea) = false
             \/ exists e, res = inl (EmittingEvent, e)))
        \/ (truthy (ea_relations ea) = true
            /\ objects m =
                 store_all (seq 0 (length ex) ++ seq (length ex) (length up))
                   (processNestedRelations (args ObjectRecord (ex ++ up))).1 heap
            /\ calls is_hydrate m =
                 [EvProcessNestedRelations
                    (args ref (seq 0 (length ex) ++ seq (length ex) (length up)))
                    (args ObjectRecord (ex ++ up))])).
Proof.
  cbv zeta. rewrite resolve_initial. cbv zeta.
  destruct (applyFilterToBuilder _ _ _) as [e|q1]; [cbn; intros Hin; in_trace|].
  destruct (getMany q1) as [e|rows] eqn:Hget; [cbn; intros Hin; in_trace|].
  destruct (isEmpty rows); [cbn; intros Hin; in_trace|].
  destruct (applyFilterToBuilder _ _ _) as [e|q0]; [cbn; intros Hin; in_trace|].
  destruct (update_returning_execute q0 _) as [e|raws] eqn:Hupd;
    [cbn; intros Hin; in_trace|].
  set (ex := map _ rows). set (up := map _ raws).
  destruct (emitUpdateEvents _) as [e|] eqn:Hemit;
    [|destruct (truthy (ea_relations ea)) eqn:Hrel;
      [destruct (processNestedRelations _) as [cs [e|]] eqn:Hhyd|]];
    cbn; intros Hin; in_trace; inversion Hin; subst payload seen;
    exists q1, rows, q0, raws; fold ex up;
    (split; [exact Hget|]); (split; [exact Hupd|]);
    (split; [auto 10|]); (split; [auto 10|]);
    (split; [reflexivity|]); (split; [reflexivity|]);
    (split; [reflexivity|]).
  - split; [discriminate|]. left. eauto 10.
  - split; [discriminate|]. right. rewrite Hhyd. auto.
  - split; [intros out [= <-]; reflexivity|]. right. rewrite Hhyd. auto.
  - split; [|left; auto].
    intros out [= <-]. now rewrite contents_of_updated.
Qed.

Lemma resolve_success_emits (ea : ExecutionArgs) (out : list JsVal) :
  (resolve ea initial).1 = inr out ->
  exists payload seen,
    In (EvEmitUpdateEvents payload seen) (trace (resolve ea initial).2).
Proof.
  resolve_cases; cbn; intros Hout; try discriminate Hout;
    do 2 eexists; auto 10.
Qed.

Lemma resolve_hydrated_emits (ea : ExecutionArgs)
    (a : NestedRelationsArgs ref) (s : NestedRelationsArgs ObjectRecord) :
  In (EvProcessNestedRelations a s) (trace (resolve ea initial).2) ->
  exists payload seen,
    In (EvEmitUpdateEvents payload seen) (trace (resolve ea initial).2).
Proof.
  resolve_cases; cbn; intros Hin; in_trace; do 2 eexists; auto 10.
Qed.

End Inversion.

(** * The claims *)




(** C2.  When the read query built from the filter returns no row, the call
    fails with [GraphqlQueryRunnerException "Records not found"
    RECORD_NOT_FOUND]; exactly one read query has been issued and no update
    statement. *)
Theorem no_match_fails_without_write `{Platform}
    (ea : ExecutionArgs) (q : QueryBuilder) :
  let name := nameSingular (objectMetadataItemWithFieldMaps (ea_options ea)) in
  applyFilterToBuilder (createQueryBuilder name) name (args_filter (ea_args ea))
    = inr q ->
  getMany q = inr [] ->
  (resolve ea initial).1
    = inl (SnapshottingExisting,
           GraphqlQueryRunnerException "Records not found" RECORD_NOT_FOUND)
  /\ calls is_read (resolve ea initial).2 = [EvGetMany 1 q]
  /\ calls is_write (resolve ea initial).2 = []
  /\ (validate (ea_args ea) (ea_options ea) initial = (inr tt, initial) ->
        execute ea initial = resolve ea initial).
Proof.
  intros name Hread Hget. subst name.
  assert (Hexec : validate (ea_args ea) (ea_options ea) initial = (inr tt, initial) ->
                  execute ea initial = resolve ea initial)
    by apply execute_validation_success.
  destruct (resolve ea initial) as [res m] eqn:Hrun.
  rewrite resolve_initial in Hrun. cbv zeta in Hrun.
  rewrite Hread, Hget in Hrun. cbn in Hrun. injection Hrun as <- <-.
  repeat split. exact Hexec.
Qed.

Lemma no_match_fails_without_write_witness :
  @getMany Toy.platform [("task", Some (Toy.id_in []))] = inr []
  /\ (@resolve Toy.platform Toy.close_none initial).1
     = inl (SnapshottingExisting,
            GraphqlQueryRunnerException "Records not found" RECORD_NOT_FOUND)
  /\ calls is_write (@resolve Toy.platform Toy.close_none initial).2 = [].
Proof.
  split; [reflexivity|].
  pose proof (@no_match_fails_without_write Toy.platform Toy.close_none
                [("task", Some (Toy.id_in []))] eq_refl eq_refl)
    as (Hres & _ & Hwrite & _).
  split; [exact Hres | exact Hwrite].
Defined.

(** C3 (amended).  A call without a filter fails in the validation stage and
    leaves the machine as it was: no query builder is created, no read and
    no write is issued.  The error is [Error "Filter is required"] when the
    target object type is writable; on a remote object type the guard that
    runs first raises [MutationNotAllowed]. *)
Theorem missing_filter_fails_in_validation `{Platform} (ea : ExecutionArgs) :
  args_filter (ea_args ea) = None ->
  let thrown :=
    if isRemote (objectMetadataItemWithFieldMaps (ea_options ea))
    then MutationNotAllowed else Error "Filter is required" in
  (forall m, validate (ea_args ea) (ea_options ea) m = (inl (Validating, thrown), m))
  /\ execute ea initial = (inl (Validating, thrown), initial)
  /\ calls is_read (execute ea initial).2 = []
  /\ calls is_write (execute ea initial).2 = [].
Proof.
  intros Hnone thrown.
  assert (Hv : forall m,
    validate (ea_args ea) (ea_options ea) m = (inl (Validating, thrown), m)).
  { intros m. subst thrown.
    unfold validate, bind, attempt, assertMutationNotOnRemoteObject.
    destruct (isRemote _); cbn; [reflexivity|]. now rewrite Hnone. }
  split; [exact Hv|].
  rewrite (execute_validation_failure ea _ initial (Hv initial)).
  repeat split.
Qed.

Lemma missing_filter_fails_in_validation_witness :
  args_filter (ea_args Toy.no_filter) = None
  /\ @execute Toy.platform Toy.no_filter initial
     = (inl (Validating, Error "Filter is required"), initial).
Proof.
  split; [reflexivity|].
  exact (proj1 (proj2
    (@missing_filter_fails_in_validation Toy.platform Toy.no_filter eq_refl))).
Defined.

(** C3 as stated fails on a remote object type: the call has no filter and
    the error is not "Filter is required". *)
Lemma missing_filter_on_remote_object :
  args_filter (ea_args Toy.no_filter_remote) = None
  /\ @execute Toy.platform Toy.no_filter_remote initial
     = (inl (Validating, MutationNotAllowed), initial)
  /\ (@execute Toy.platform Toy.no_filter_remote initial).1
     <> inl (Validating, Error "Filter is required").
Proof. repeat split. discriminate. Qed.

(** C4 (amended).  Only the top-level clause [filter.id.in] is read.  If one
    of its values is not a valid identifier, the identifier check raises
    [InvalidIdentifier] for the first such value, and the call fails in the
    validation stage with the machine untouched (no query executes): with
    that [InvalidIdentifier] on a writable object type, with
    [MutationNotAllowed] on a remote one.  If all its values are valid, the
    identifier check succeeds. *)
Theorem top_level_identifiers_validated `{Platform} (ea : ExecutionArgs)
    (f : ObjectRecordFilter) (ids : list string) :
  args_filter (ea_args ea) = Some f ->
  filter_id_in f = Some ids ->
  ((exists id, In id ids /\ isValidUuid id = false) ->
     exists bad, In bad ids /\ isValidUuid bad = false
       /\ (forall m, validateIdentifiers f m =
                       (inl (Validating, InvalidIdentifier bad), m))
       /\ execute ea initial =
            (inl (Validating,
                  if isRemote (objectMetadataItemWithFieldMaps (ea_options ea))
                  then MutationNotAllowed else InvalidIdentifier bad),
             initial))
  /\ ((forall id, In id ids -> isValidUuid id = true) ->
        forall m, validateIdentifiers f m = (inr tt, m)).
Proof.
  intros Hf Hids. split.
  - intros (id & Hin & Hbad).
    destruct (first_invalid_exists ids id Hin Hbad) as [bad Hfirst].
    destruct (first_invalid_Some ids bad Hfirst) as [Hbin Hbinv].
    exists bad. split; [exact Hbin|]. split; [exact Hbinv|].
    assert (Hstep : forall m, validateIdentifiers f m =
                      (inl (Validating, InvalidIdentifier bad), m)).
    { intros m. unfold validateIdentifiers. rewrite Hids.
      rewrite forEach_assertIsValidUuid. now rewrite Hfirst. }
    split; [exact Hstep|].
    apply execute_validation_failure.
    destruct (isRemote _) eqn:Hr.
    + now apply validate_remote.
    + rewrite (validate_writable _ _ f initial Hr Hf). apply Hstep.
  - intros Hall m. unfold validateIdentifiers. rewrite Hids.
    rewrite forEach_assertIsValidUuid.
    apply first_invalid_None in Hall. now rewrite Hall.
Qed.

Lemma top_level_identifiers_validated_witness :
  (exists id, In id [Toy.uuidA; "not-a-uuid"]
              /\ @isValidUuid Toy.platform id = false)
  /\ exists bad,
       @execute Toy.platform Toy.bad_id initial
       = (inl (Validating, InvalidIdentifier bad), initial).
Proof.
  assert (Hex : exists id, In id [Toy.uuidA; "not-a-uuid"]
                           /\ @isValidUuid Toy.platform id = false).
  { exists "not-a-uuid". split; [right; left; reflexivity | reflexivity]. }
  split; [exact Hex|].
  destruct (proj1 (@top_level_identifiers_validated Toy.platform Toy.bad_id
                     (Toy.id_in [Toy.uuidA; "not-a-uuid"])
                     [Toy.uuidA; "not-a-uuid"] eq_refl eq_refl) Hex)
    as (bad & _ & _ & _ & Hexec).
  exists bad. exact Hexec.
Defined.

(** C4 as stated fails below the top level: ["not-a-uuid"] sits in an
    "id is one of" clause under [and], validation succeeds and the read
    query is issued. *)
Lemma nested_identifier_not_validated :
  let ea := Toy.call Toy.taskMeta (Some Toy.bad_id_under_and)
              [("status", JStr "done")] JUndefined in
  filter_and Toy.bad_id_under_and = Some [Toy.id_in ["not-a-uuid"]]
  /\ @isValidUuid Toy.platform "not-a-uuid" = false
  /\ @validate Toy.platform (ea_args ea) (ea_options ea) initial = (inr tt, initial)
  /\ length (calls is_read (@execute Toy.platform ea initial).2) = 1%nat.
Proof. repeat split. Qed.

(** C5.  The [updatedFields] of the event are the keys of [args.data] as
    the caller sent it, in the caller's order, whatever the formatted data
    and whatever rows the store returned before and after the update; a
    successful call emits exactly one such event. *)
Theorem updatedFields_are_payload_keys `{Platform} (ea : ExecutionArgs) :
  let res := (execute ea initial).1 in
  let m := (execute ea initial).2 in
  (forall payload seen, In (EvEmitUpdateEvents payload seen) (trace m) ->
     ev_updatedFields payload = Object_keys (args_data (ea_args ea))
     /\ ev_updatedFields seen = Object_keys (args_data (ea_args ea)))
  /\ (forall out, res = inr out ->
        exists payload seen,
          calls is_emit m = [EvEmitUpdateEvents payload seen]
          /\ ev_updatedFields seen = Object_keys (args_data (ea_args ea))).
Proof.
  cbv zeta. destruct (execute_cases ea) as [-> | [e ->]].
  - assert (Hfields : forall payload seen,
      In (EvEmitUpdateEvents payload seen) (trace (resolve ea initial).2) ->
      calls is_emit (resolve ea initial).2 = [EvEmitUpdateEvents payload seen]
      /\ ev_updatedFields payload = Object_keys (args_data (ea_args ea))
      /\ ev_updatedFields seen = Object_keys (args_data (ea_args ea))).
    { intros payload seen Hin.
      destruct (resolve_emitted ea payload seen Hin)
        as (q1 & rows & q0 & raws & _ & _ & _ & _ & -> & -> & Hcalls & _).
      split; [exact Hcalls|]. now split. }
    split.
    + intros payload seen Hin. now destruct (Hfields payload seen Hin) as (_ & ? & ?).
    + intros out Hout.
      destruct (resolve_success_emits ea out Hout) as (payload & seen & Hin).
      exists payload, seen. now destruct (Hfields payload seen Hin) as (? & _ & ?).
  - cbn. split; [intros ? ? []|discriminate].
Qed.

Lemma updatedFields_are_payload_keys_witness :
  exists out payload seen,
    (@execute Toy.platform Toy.close_done initial).1 = inr out
    /\ calls is_emit (@execute Toy.platform Toy.close_done initial).2
       = [EvEmitUpdateEvents payload seen]
    /\ ev_updatedFields seen = ["status"]
    /\ ev_existingRecords seen = ev_records seen.
Proof.
  eexists.
  destruct (proj2 (@updatedFields_are_payload_keys Toy.platform Toy.close_done)
              _ eq_refl) as (payload & seen & Hcalls & Hfields).
  exists payload, seen. split; [reflexivity|]. split; [exact Hcalls|].
  split; [exact Hfields|].
  vm_compute in Hcalls. injection Hcalls as _ <-. reflexivity.
Defined.

(** C6.  The records the emitter is handed are copies: objects of their own,
    distinct from the working records (the ones the hydrator is given), and
    holding the formatted snapshot and the formatted updated rows.  At the
    end of the call, after any hydration, they still hold what the emitter
    saw, and no further write to working records changes that. *)
Theorem emitted_records_are_snapshots `{Platform} (ea : ExecutionArgs)
    (payload : UpdateEventPayload ref) (seen : UpdateEventPayload ObjectRecord) :
  let options := ea_options ea in
  let meta := objectMetadataItemWithFieldMaps options in
  let fmt := fun row => formatRow row meta (objectMetadataMaps options) in
  let m := (execute ea initial).2 in
  In (EvEmitUpdateEvents payload seen) (trace m) ->
  exists q1 rows q0 raws data,
    In (EvGetMany 1 q1) (trace m) /\ getMany q1 = inr rows
    /\ In (EvUpdate 0 q0 data) (trace m)
    /\ update_returning_execute q0 data = inr raws
    /\ ev_existingRecords seen = map fmt rows
    /\ ev_records seen = map fmt raws
    /\ let working := seq 0 (length rows + length raws) in
       (forall r, In r (ev_existingRecords payload ++ ev_records payload) ->
          ~ In r working)
       /\ (forall a s, In (EvProcessNestedRelations a s) (trace m) ->
             nr_parentObjectRecords a = working)
       /\ map_event (contents_of (objects m)) payload = seen
       /\ (forall ws cs, (forall r, In r ws -> In r working) ->
             map_event (contents_of (store_all ws cs (objects m))) payload = seen).
Proof.
  cbv zeta. destruct (execute_cases ea) as [-> | [e ->]]; [|intros []].
  intros Hin.
  destruct (resolve_emitted ea payload seen Hin)
    as (q1 & rows & q0 & raws & Hget & Hupd & Hread & Hwrite & -> & ->
        & _ & _ & Hheap).
  cbv zeta in Hheap.
  set (ex := map _ rows) in *. set (up := map _ raws) in *.
  assert (Hlen : (length (ex ++ up) = length rows + length raws)%nat)
    by (subst ex up; now rewrite length_app, !length_map).
  exists q1, rows, q0, raws,
    (formatData (args_data (ea_args ea))
       (objectMetadataItemWithFieldMaps (ea_options ea))).
  do 6 (split; [first [eassumption | reflexivity]|]).
  cbn [ev_existingRecords ev_records].
  assert (Hparents : forall a s,
    In (EvProcessNestedRelations a s) (trace (resolve ea initial).2) ->
    nr_parentObjectRecords a = seq 0 (length rows + length raws)).
  { intros a s Ha. apply (in_calls is_hydrate) in Ha; [|reflexivity].
    destruct Hheap as [(_ & Hcalls & _) | (_ & _ & Hcalls)];
      rewrite Hcalls in Ha; [destruct Ha|].
    destruct Ha as [[= <- _]|[]].
    rewrite seq_working. subst ex up. now rewrite !length_map. }
  assert (Hcopies : forall ws cs,
    (forall r, In r ws -> In r (seq 0 (length rows + length raws))) ->
    contents_of (store_all ws cs (objects (resolve ea initial).2))
      (seq (length (ex ++ up)) (length ex)) = ex
    /\ contents_of (store_all ws cs (objects (resolve ea initial).2))
         (seq (length ((ex ++ up) ++ ex)) (length up)) = up).
  { intros ws cs Hws.
    assert (Hws' : forall r, In r ws -> (r < length (ex ++ up))%nat).
    { intros r Hr. apply Hws, in_seq in Hr. heap_lia. }
    destruct Hheap as [(-> & _) | (_ & -> & _)].
    - apply (copies_intact ex up [] ws [] cs); [intros ? []|exact Hws'].
    - apply copies_intact; [|exact Hws'].
      intros r Hr. rewrite seq_working in Hr. apply in_seq in Hr.
      rewrite length_app. heap_lia. }
  split; [|split; [exact Hparents|split]].
  - intros r Hr Hw. apply in_seq in Hw.
    apply in_app_or in Hr as [Hr|Hr]; apply in_seq in Hr;
      rewrite ?length_app in *; heap_lia.
  - destruct (Hcopies [] [] (fun _ (F : In _ []) => match F with end)) as [He Hu].
    cbn [store_all] in He, Hu. unfold map_event.
    cbn [ev_existingRecords ev_records ev_updatedFields ev_authContext
         ev_objectMetadataItem].
    now rewrite He, Hu.
  - intros ws cs Hws. destruct (Hcopies ws cs Hws) as [He Hu].
    unfold map_event.
    cbn [ev_existingRecords ev_records ev_updatedFields ev_authContext
         ev_objectMetadataItem].
    now rewrite He, Hu.
Qed.

Lemma emitted_records_are_snapshots_witness :
  let m := (@execute Toy.platform Toy.close_two_with_relations initial).2 in
  let payload :=
    {| ev_existingRecords := [4; 5]; ev_records := [6; 7];
       ev_updatedFields := ["status"]; ev_authContext := JStr "workspace-1";
       ev_objectMetadataItem := JStr "task" |} in
  let seen :=
    {| ev_existingRecords := [Toy.row Toy.uuidA "open"; Toy.row Toy.uuidB "open"];
       ev_records := [Toy.row Toy.uuidA "done"; Toy.row Toy.uuidB "done"];
       ev_updatedFields := ["status"]; ev_authContext := JStr "workspace-1";
       ev_objectMetadataItem := JStr "task" |} in
  In (EvEmitUpdateEvents payload seen) (trace m)
  /\ map_event (contents_of (objects m)) payload = seen
  /\ contents_of (objects m) [0; 1] <> ev_existingRecords seen.
Proof.
  intros m payload seen.
  assert (Hin : In (EvEmitUpdateEvents payload seen) (trace m))
    by (vm_compute; do 6 right; left; reflexivity).
  split; [exact Hin|].
  destruct (@emitted_records_are_snapshots Toy.platform
              Toy.close_two_with_relations payload seen Hin)
    as (q1 & rows & q0 & raws & data & _ & _ & _ & _ & _ & _ & _ & _ & Hend & _).
  split; [exact Hend|]. vm_compute. discriminate.
Defined.

(** C7.  On a successful call the emitter is called exactly once, right
    after the update statement and before the hydrator, if that is called
    at all.  On a call that fails while validating, taking the snapshot or
    mutating it is not called.  No call reaches it twice. *)
Theorem emitter_called_once_on_success `{Platform} (ea : ExecutionArgs) :
  let res := (execute ea initial).1 in
  let m := (execute ea initial).2 in
  (forall out, res = inr out ->
     exists update emit after,
       List.filter (fun e => is_write e || is_emit e || is_hydrate e) (trace m)
         = update :: emit :: after
       /\ is_write update = true /\ is_emit emit = true
       /\ (after = [] \/ exists h, after = [h] /\ is_hydrate h = true)
       /\ calls is_emit m = [emit])
  /\ (forall stage e, res = inl (stage, e) ->
        stage = Validating \/ stage = SnapshottingExisting \/ stage = Mutating ->
        calls is_emit m = [])
  /\ (length (calls is_emit m) <= 1)%nat.
Proof.
  cbv zeta. destruct (execute_cases ea) as [-> | [e ->]].
  - resolve_cases; cbn; unfold calls; cbn.
    all: split;
      [intros out Hout; first
         [discriminate Hout
         | do 3 eexists; (split; [reflexivity|]);
           (split; [reflexivity|]); (split; [reflexivity|]);
           (split; [|reflexivity]);
           first [left; reflexivity | right; eexists; split; reflexivity]] |].
    all: split; [|lia].
    all: intros stage e' Hres Hstage; inversion Hres; subst; try reflexivity.
    all: destruct Hstage as [Hs|[Hs|Hs]]; discriminate Hs.
  - cbn. split; [discriminate|]. split; [reflexivity | lia].
Qed.

Lemma emitter_called_once_on_success_witness :
  (exists out, (@execute Toy.platform Toy.close_two initial).1 = inr out
               /\ exists emit,
                    calls is_emit (@execute Toy.platform Toy.close_two initial).2
                    = [emit])
  /\ (@execute Toy.platform Toy.close_none initial).1
     = inl (SnapshottingExisting,
            GraphqlQueryRunnerException "Records not found" RECORD_NOT_FOUND)
  /\ calls is_emit (@execute Toy.platform Toy.close_none initial).2 = [].
Proof.
  split.
  - eexists. split; [vm_compute; reflexivity|].
    destruct (proj1 (@emitter_called_once_on_success Toy.platform Toy.close_two)
                _ eq_refl) as (update & emit & after & _ & _ & _ & _ & Hcalls).
    exists emit. exact Hcalls.
  - split; [reflexivity|].
    exact (proj1 (proj2 (@emitter_called_once_on_success Toy.platform
                           Toy.close_none))
             _ _ eq_refl (or_intror (or_introl eq_refl))).
Defined.

(** C8 (amended).  The hydrator is called only when [relations] of the
    selected fields is truthy -- set, be it to an empty selection -- and then
    once on every call that gets past the emitter.
    It is given the working records -- the formatted snapshot followed by the
    formatted updated rows, the objects themselves and not copies --
    [QUERY_MAX_RECORDS] as limit, the auth context, and
    [isExecutedByApiKey] as [shouldBypassPermissionChecks]. *)
Theorem hydrator_called_when_relations_selected `{Platform}
    (ea : ExecutionArgs) :
  let options := ea_options ea in
  let meta := objectMetadataItemWithFieldMaps options in
  let maps := objectMetadataMaps options in
  let fmt := fun row => formatRow row meta maps in
  let res := (execute ea initial).1 in
  let m := (execute ea initial).2 in
  let args (R : Type) (parents : list R) :=
    {| nr_objectMetadataMaps := maps;
       nr_parentObjectMetadataItem := meta;
       nr_parentObjectRecords := parents;
       nr_relations := ea_relations ea;
       nr_limit := QUERY_MAX_RECORDS;
       nr_authContext := authContext options;
       nr_workspaceDataSource := ea_workspaceDataSource ea;
       nr_roleId := ea_roleId ea;
       nr_shouldBypassPermissionChecks := ea_isExecutedByApiKey ea |} in
  (forall a s, In (EvProcessNestedRelations a s) (trace m) ->
     truthy (ea_relations ea) = true
     /\ calls is_hydrate m = [EvProcessNestedRelations a s]
     /\ exists q1 rows q0 raws data,
          In (EvGetMany 1 q1) (trace m) /\ getMany q1 = inr rows
          /\ In (EvUpdate 0 q0 data) (trace m)
          /\ update_returning_execute q0 data = inr raws
          /\ a = args ref (seq 0 (length rows) ++ seq (length rows) (length raws))
          /\ s = args ObjectRecord (map fmt rows ++ map fmt raws))
  /\ (forall out, res = inr out ->
        (truthy (ea_relations ea) = true <-> calls is_hydrate m <> []))
  /\ (truthy (ea_relations ea) = false -> calls is_hydrate m = []).
Proof.
  cbv zeta. destruct (execute_cases ea) as [-> | [e ->]].
  2:{ cbn. split; [intros ? ? []|]. split; [discriminate|reflexivity]. }
  match goal with |- ?A /\ _ => assert (Honly : A) end.
  { intros a s Ha.
    destruct (resolve_hydrated_emits ea a s Ha) as (payload & seen & Hin).
    destruct (resolve_emitted ea payload seen Hin)
      as (q1 & rows & q0 & raws & Hget & Hupd & Hread & Hwrite & _ & _
          & _ & _ & Hheap).
    cbv zeta in Hheap. apply (in_calls is_hydrate) in Ha; [|reflexivity].
    destruct Hheap as [(_ & Hcalls & _) | (Hrel & _ & Hcalls)];
      rewrite Hcalls in Ha; [destruct Ha|].
    destruct Ha as [[= <- <-]|[]].
    split; [exact Hrel|]. split; [exact Hcalls|].
    exists q1, rows, q0, raws,
      (formatData (args_data (ea_args ea))
         (objectMetadataItemWithFieldMaps (ea_options ea))).
    rewrite !length_map.
    repeat (split; [first [eassumption | reflexivity]|]). reflexivity. }
  assert (Hnever : truthy (ea_relations ea) = false ->
                   calls is_hydrate (resolve ea initial).2 = []).
  { intros Hrel.
    destruct (calls_nil_or_in is_hydrate (resolve ea initial).2)
      as [Hnil|(ev & Hin & Hp)]; [exact Hnil|].
    destruct ev; try discriminate Hp.
    destruct (Honly _ _ Hin) as [Htrue _]. congruence. }
  split; [exact Honly|]. split; [|exact Hnever].
  intros out Hout. split.
  - intros Hrel.
    destruct (resolve_success_emits ea out Hout) as (payload & seen & Hin).
    destruct (resolve_emitted ea payload seen Hin)
      as (q1 & rows & q0 & raws & _ & _ & _ & _ & _ & _ & _ & _ & Hheap).
    cbv zeta in Hheap.
    destruct Hheap as [(_ & _ & [Hfalse|[e He]]) | (_ & _ & ->)];
      [congruence | congruence | discriminate].
  - intros Hcalls. apply not_false_iff_true. intros Hrel.
    now apply Hnever in Hrel.
Qed.

Lemma hydrator_called_when_relations_selected_witness :
  truthy (ea_relations Toy.close_two_with_relations) = true
  /\ (exists out,
        (@execute Toy.platform Toy.close_two_with_relations initial).1 = inr out)
  /\ calls is_hydrate (@execute Toy.platform Toy.close_two_with_relations initial).2
     <> []
  /\ calls is_hydrate (@execute Toy.platform Toy.close_two initial).2 = [].
Proof.
  split; [reflexivity|]. split; [eexists; vm_compute; reflexivity|].
  split.
  - exact (proj1 (proj1 (proj2 (@hydrator_called_when_relations_selected
                                  Toy.platform Toy.close_two_with_relations))
                    _ eq_refl) eq_refl).
  - exact (proj2 (proj2 (@hydrator_called_when_relations_selected
                           Toy.platform Toy.close_two)) eq_refl).
Defined.

(** C8 as stated fails on an empty selection: [relations: {}] requests no
    related entity, and on a call that succeeds the hydrator is called all
    the same, once. *)
Lemma empty_selection_calls_hydrator :
  let run := @execute Toy.platform Toy.close_two_with_empty_selection initial in
  ea_relations Toy.close_two_with_empty_selection = JObj []
  /\ selection_requests_related_entities
       (ea_relations Toy.close_two_with_empty_selection) = false
  /\ (exists out, run.1 = inr out)
  /\ length (calls is_hydrate run.2) = 1.
Proof.
  cbv zeta. split; [reflexivity|]. split; [reflexivity|].
  split; [eexists; vm_compute; reflexivity | reflexivity].
Qed.

(** C9.  A successful call returns one connection per row the update
    statement returned, in the order of those rows: entry [i] is
    [processRecord] applied to the record formatted from row [i], with
    [take] 1 and [totalCount] 1 and the singular name of the object type.
    When relations were hydrated, the record is passed as the hydrator left
    it. *)
Theorem output_wraps_updated_rows_in_order `{Platform}
    (ea : ExecutionArgs) (out : list JsVal) :
  let options := ea_options ea in
  let meta := objectMetadataItemWithFieldMaps options in
  let maps := objectMetadataMaps options in
  let fmt := fun row => formatRow row meta maps in
  let m := (execute ea initial).2 in
  (execute ea initial).1 = inr out ->
  exists q1 rows q0 raws data,
    In (EvGetMany 1 q1) (trace m) /\ getMany q1 = inr rows
    /\ In (EvUpdate 0 q0 data) (trace m)
    /\ update_returning_execute q0 data = inr raws
    /\ length out = length raws
    /\ (truthy (ea_relations ea) = false ->
          out = map (fun raw => processRecord maps (fmt raw) (nameSingular meta) 1 1)
                  raws)
    /\ forall i raw, raws !! i = Some raw ->
         exists record,
           out !! i = Some (processRecord maps record (nameSingular meta) 1 1)
           /\ (truthy (ea_relations ea) = false -> record = fmt raw)
           /\ (forall a s, In (EvProcessNestedRelations a s) (trace m) ->
                 record = default (fmt raw)
                            ((processNestedRelations s).1 !! (length rows + i)%nat)).
Proof.
  cbv zeta. destruct (execute_cases ea) as [-> | [e ->]]; [|discriminate].
  intros Hout.
  destruct (resolve_success_emits ea out Hout) as (payload & seen & Hin).
  destruct (resolve_emitted ea payload seen Hin)
    as (q1 & rows & q0 & raws & Hget & Hupd & Hread & Hwrite & _ & _
        & _ & Hres & Hheap).
  cbv zeta in Hres, Hheap. specialize (Hres out Hout).
  set (ex := map _ rows) in *. set (up := map _ raws) in *.
  set (wrap := fun r => processRecord _ r _ 1%Z 1%Z) in *.
  exists q1, rows, q0, raws,
    (formatData (args_data (ea_args ea))
       (objectMetadataItemWithFieldMaps (ea_options ea))).
  do 4 (split; [assumption|]).
  assert (Hlen : length out = length raws).
  { rewrite Hres, length_map, length_contents_of, length_seq.
    subst up. apply length_map. }
  split; [exact Hlen|].
  assert (Hup : forall i raw, raws !! i = Some raw ->
            (i < length up)%nat
            /\ deref (((ex ++ up) ++ ex) ++ up) (length ex + i)
               = formatRow raw (objectMetadataItemWithFieldMaps (ea_options ea))
                   (objectMetadataMaps (ea_options ea))).
  { intros i raw Hi.
    assert (Hlt : (i < length up)%nat).
    { subst up. rewrite length_map. now apply lookup_lt_Some in Hi. }
    split; [exact Hlt|].
    pose proof (lookup_contents_of (((ex ++ up) ++ ex) ++ up) (length ex)
                  (length up) i Hlt) as Hl.
    rewrite contents_of_updated in Hl. subst up.
    rewrite lookup_map, Hi in Hl. cbn in Hl. congruence. }
  destruct Hheap as [(Hobj & Hcalls & Hrel) | (Hrel & Hobj & Hcalls)].
  - rewrite Hobj, contents_of_updated in Hres.
    split.
    + intros _. rewrite Hres. subst up wrap. now rewrite map_map.
    + intros i raw Hi.
      exists (formatRow raw (objectMetadataItemWithFieldMaps (ea_options ea))
                (objectMetadataMaps (ea_options ea))).
      split; [|split; [reflexivity|]].
      * rewrite Hres. subst up. now rewrite !lookup_map, Hi.
      * intros a s Ha. apply (in_calls is_hydrate) in Ha; [|reflexivity].
        rewrite Hcalls in Ha. destruct Ha.
  - split; [congruence|].
    intros i raw Hi. destruct (Hup i raw Hi) as [Hlt Hderef].
    eexists. split; [|split; [congruence|]].
    + rewrite Hres, lookup_map, (lookup_contents_of _ _ _ _ Hlt). reflexivity.
    + intros a s Ha. apply (in_calls is_hydrate) in Ha; [|reflexivity].
      rewrite Hcalls in Ha. destruct Ha as [[= <- <-]|[]].
      rewrite Hobj, seq_working, deref_store_all_seq.
      * rewrite Hderef, Nat.sub_0_r. subst ex. now rewrite length_map.
      * rewrite !length_app. heap_lia.
      * heap_lia.
Qed.

Lemma output_wraps_updated_rows_in_order_witness :
  exists out raws,
    (@execute Toy.platform Toy.close_two initial).1 = inr out
    /\ length out = length raws
    /\ out = map (fun raw => @processRecord Toy.platform JNull raw "task" 1 1) raws.
Proof.
  eexists.
  destruct (@output_wraps_updated_rows_in_order Toy.platform Toy.close_two
              _ eq_refl)
    as (q1 & rows & q0 & raws & data & _ & _ & _ & _ & Hlen & Hout & _).
  exists raws. split; [reflexivity|]. split; [exact Hlen|].
  exact (Hout eq_refl).
Defined.

(** C10.  The identifier check reads nothing but the top-level [id.in]: its
    outcome, and that of [validate], is the same for any two filters that
    agree there, whatever their [and]/[or]/[not] nodes, the other operators
    of [id] and the clauses on other fields hold.  A filter without a
    top-level [id.in] passes the check, and with it validation on a writable
    object type. *)
Theorem identifier_check_is_top_level_only `{Platform}
    (id_clause : option UUIDFilter) (field_clauses : list (string * JsVal))
    (and_nodes or_nodes : option (list ObjectRecordFilter))
    (not_node : option ObjectRecordFilter)
    (data : JsObject) (options : WorkspaceQueryRunnerOptions) (m : Machine) :
  let f := RecordFilter id_clause field_clauses and_nodes or_nodes not_node in
  (forall g, filter_id_in g = filter_id_in f ->
     validateIdentifiers g m = validateIdentifiers f m
     /\ validate {| args_filter := Some g; args_data := data |} options m
        = validate {| args_filter := Some f; args_data := data |} options m)
  /\ (filter_id_in f = None ->
        validateIdentifiers f m = (inr tt, m)
        /\ (isRemote (objectMetadataItemWithFieldMaps options) = false ->
              validate {| args_filter := Some f; args_data := data |} options m
              = (inr tt, m))).
Proof.
  intros f. split.
  - intros g Hg.
    assert (Hstep : validateIdentifiers g m = validateIdentifiers f m)
      by (unfold validateIdentifiers; now rewrite Hg).
    split; [exact Hstep|].
    unfold validate, bind. cbn [args_filter].
    destruct (attempt Validating _ m) as [[e|[]] m']; [reflexivity|].
    unfold validateIdentifiers. now rewrite Hg.
  - intros Hnone.
    assert (Hstep : validateIdentifiers f m = (inr tt, m)).
    { unfold validateIdentifiers. now rewrite Hnone. }
    split; [exact Hstep|]. intros Hr.
    rewrite (validate_writable {| args_filter := Some f; args_data := data |}
               options f m Hr eq_refl).
    exact Hstep.
Qed.

Lemma identifier_check_is_top_level_only_witness :
  filter_id_in Toy.bad_ids_elsewhere = None
  /\ @isRemote Toy.taskMeta = false
  /\ @validate Toy.platform
       {| args_filter := Some Toy.bad_ids_elsewhere; args_data := [] |}
       (Toy.options_for Toy.taskMeta) initial
     = (inr tt, initial).
Proof.
  split; [reflexivity|]. split; [reflexivity|].
  exact (proj2 (proj2
    (@identifier_check_is_top_level_only Toy.platform
       (Some {| uuid_eq := Some "not-a-uuid"; uuid_in := None;
                uuid_neq := Some "neither"; uuid_is := None |})
       [("companyId", JObj [("in", JArr [JStr "not-a-uuid"])])]
       (Some [Toy.id_in ["not-a-uuid"]])
       (Some [Toy.id_in ["not-a-uuid"]])
       (Some (Toy.id_in ["not-a-uuid"]))
       [] (Toy.options_for Toy.taskMeta) initial) eq_refl) eq_refl).
Defined.

(** * Further properties of the resolver *)

Lemma first_invalid_split `{Platform} (ids : list string) (bad : string) :
  first_invalid ids = Some bad <->
  exists pre post, ids = pre ++ bad :: post
    /\ (forall id, In id pre -> isValidUuid id = true)
    /\ isValidUuid bad = false.
Proof.
  unfold first_invalid. split.
  - induction ids as [|id ids IH]; [discriminate|]. cbn.
    destruct (isValidUuid id) eqn:Hid; cbn.
    + intros Hf. destruct (IH Hf) as (pre & post & -> & Hpre & Hbad).
      exists (id :: pre), post. split; [reflexivity|]. split; [|exact Hbad].
      intros x [<-|Hx]; [exact Hid | now apply Hpre].
    + intros [= <-]. exists [], ids. repeat split; [intros ? []|exact Hid].
  - intros (pre & post & -> & Hpre & Hbad).
    induction pre as [|id pre IH]; cbn.
    + now rewrite Hbad.
    + rewrite (Hpre id (or_introl eq_refl)). cbn.
      apply IH. intros x Hx. apply Hpre. now right.
Qed.

(** X1.  [validate] makes no call and changes no store, whatever it is
    given, and it has four outcomes, decided in this order: on a remote
    object type [MutationNotAllowed], whatever the filter; else without a
    filter [Error "Filter is required"]; else [InvalidIdentifier] for a value
    of the top-level [id.in] that is not valid; else success, and then every
    value of the top-level [id.in] is valid. *)
Theorem validate_outcomes `{Platform} (args : UpdateManyResolverArgs)
    (options : WorkspaceQueryRunnerOptions) (m : Machine) :
  let remote := isRemote (objectMetadataItemWithFieldMaps options) in
  (validate args options m).2 = m
  /\ match (validate args options m).1 with
     | inr _ =>
         remote = false
         /\ exists f, args_filter args = Some f
              /\ forall ids id, filter_id_in f = Some ids -> In id ids ->
                   isValidUuid id = true
     | inl (stage, MutationNotAllowed) => stage = Validating /\ remote = true
     | inl (stage, Error message) =>
         stage = Validating /\ message = "Filter is required"
         /\ remote = false /\ args_filter args = None
     | inl (stage, InvalidIdentifier bad) =>
         stage = Validating /\ remote = false
         /\ exists f ids, args_filter args = Some f
              /\ filter_id_in f = Some ids /\ In bad ids
              /\ isValidUuid bad = false
     | inl _ => False
     end.
Proof.
  cbv zeta. split; [apply validate_machine|].
  destruct (isRemote (objectMetadataItemWithFieldMaps options)) eqn:Hr.
  - rewrite (validate_remote args options m Hr). cbn. auto.
  - unfold validate, bind, attempt, assertMutationNotOnRemoteObject.
    rewrite Hr. cbn.
    destruct (args_filter args) as [f|] eqn:Hf; [|cbn; auto].
    unfold validateIdentifiers.
    destruct (filter_id_in f) as [ids|] eqn:Hids.
    + rewrite forEach_assertIsValidUuid.
      destruct (first_invalid ids) as [bad|] eqn:Hfirst; cbn.
      * destruct (first_invalid_Some ids bad Hfirst) as [Hin Hbad].
        split; [reflexivity|]. split; [reflexivity|]. exists f, ids. auto.
      * split; [reflexivity|]. exists f. split; [reflexivity|].
        intros ids' id Heq Hin. rewrite Hids in Heq. injection Heq as <-.
        now apply (proj1 (first_invalid_None ids) Hfirst).
    + cbn. split; [reflexivity|]. exists f. split; [reflexivity|].
      intros ids id Heq. rewrite Hids in Heq. discriminate Heq.
Qed.

Lemma validate_outcomes_witness :
  @isValidUuid Toy.platform Toy.uuidA = true
  /\ @isValidUuid Toy.platform Toy.uuidB = true.
Proof.
  pose proof (@validate_outcomes Toy.platform (ea_args Toy.close_two)
                (ea_options Toy.close_two) initial) as [_ Hout].
  cbn in Hout. destruct Hout as (_ & f & [= <-] & Hvalid).
  split; apply (Hvalid [Toy.uuidA; Toy.uuidB]);
    first [reflexivity | left; reflexivity | right; left; reflexivity].
Defined.

(** X2.  The identifiers are checked in the order of the list and the
    check stops at the first that is not valid: that one is reported,
    whatever follows it in the list. *)
Theorem validate_reports_first_invalid_identifier `{Platform}
    (args : UpdateManyResolverArgs) (options : WorkspaceQueryRunnerOptions)
    (f : ObjectRecordFilter) (pre post : list string) (bad : string)
    (m : Machine) :
  isRemote (objectMetadataItemWithFieldMaps options) = false ->
  args_filter args = Some f ->
  filter_id_in f = Some (pre ++ bad :: post) ->
  (forall id, In id pre -> isValidUuid id = true) ->
  isValidUuid bad = false ->
  validate args options m = (inl (Validating, InvalidIdentifier bad), m).
Proof.
  intros Hr Hf Hids Hpre Hbad.
  rewrite (validate_writable args options f m Hr Hf).
  unfold validateIdentifiers. rewrite Hids, forEach_assertIsValidUuid.
  assert (Hfirst : first_invalid (pre ++ bad :: post) = Some bad)
    by (apply first_invalid_split; eauto).
  now rewrite Hfirst.
Qed.

Lemma validate_reports_first_invalid_identifier_witness :
  let args :=
    {| args_filter := Some (Toy.id_in [Toy.uuidA; "first"; Toy.uuidB; "second"]);
       args_data := [] |} in
  @validate Toy.platform args (Toy.options_for Toy.taskMeta) initial
  = (inl (Validating, InvalidIdentifier "first"), initial).
Proof.
  apply (@validate_reports_first_invalid_identifier Toy.platform _ _
           (Toy.id_in [Toy.uuidA; "first"; Toy.uuidB; "second"])
           [Toy.uuidA] [Toy.uuidB; "second"] "first");
    try reflexivity.
  intros id [<-|[]]. reflexivity.
Defined.

(** X3.  [resolve] catches nothing.  Whenever a call it made to a
    collaborator threw -- the filter parser, the read, the update statement,
    the emitter, the hydrator -- the call to [resolve] fails with that very
    exception, in the stage of that call, and the call that threw is the last
    one [resolve] made. *)
Theorem collaborator_failure_ends_the_call `{Platform} (ea : ExecutionArgs)
    (e : Exn) :
  let res := (resolve ea initial).1 in
  let m := (resolve ea initial).2 in
  (forall b q name f,
     In (EvApplyFilter b q name f) (trace m) ->
     applyFilterToBuilder q name f = inl e ->
     last (trace m) = Some (EvApplyFilter b q name f)
     /\ (b = 1 /\ res = inl (SnapshottingExisting, e)
         \/ b = 0 /\ res = inl (Mutating, e)))
  /\ (forall b q,
        In (EvGetMany b q) (trace m) -> getMany q = inl e ->
        last (trace m) = Some (EvGetMany b q)
        /\ res = inl (SnapshottingExisting, e))
  /\ (forall b q data,
        In (EvUpdate b q data) (trace m) ->
        update_returning_execute q data = inl e ->
        last (trace m) = Some (EvUpdate b q data)
        /\ res = inl (Mutating, e))
  /\ (forall payload seen,
        In (EvEmitUpdateEvents payload seen) (trace m) ->
        emitUpdateEvents seen = Some e ->
        last (trace m) = Some (EvEmitUpdateEvents payload seen)
        /\ res = inl (EmittingEvent, e))
  /\ (forall args seen,
        In (EvProcessNestedRelations args seen) (trace m) ->
        (processNestedRelations seen).2 = Some e ->
        last (trace m) = Some (EvProcessNestedRelations args seen)
        /\ res = inl (HydratingRelations, e)).
Proof.
  cbv zeta.
  resolve_cases; cbn; repeat split; intros;
    repeat match goal with
      | Hin : In _ _ |- _ => cbn in Hin
      | Hin : _ \/ _ |- _ => destruct Hin as [Hin|Hin]; [try discriminate Hin|]
      | Hin : False |- _ => destruct Hin
      | Hin : @eq Event _ _ |- _ => inversion Hin; subst; clear Hin
      | Heq : processNestedRelations ?a = _,
        Hthrown : context [processNestedRelations ?a] |- _ =>
          rewrite Heq in Hthrown; cbn in Hthrown
      end;
    try congruence;
    first [left; split; [reflexivity | congruence]
          | right; split; [reflexivity | congruence]].
Qed.

Lemma collaborator_failure_ends_the_call_witness :
  let thrown := Thrown (JStr "relation lookup failed") in
  let run := @resolve Faulty.hydrator_throws Toy.close_two_with_relations initial in
  exists args seen,
    last (trace run.2) = Some (EvProcessNestedRelations args seen)
    /\ (@processNestedRelations Faulty.hydrator_throws seen).2 = Some thrown
    /\ run.1 = inl (HydratingRelations, thrown).
Proof.
  cbv zeta.
  assert (Hlast : exists args seen,
            last (trace (@resolve Faulty.hydrator_throws
                           Toy.close_two_with_relations initial).2)
            = Some (EvProcessNestedRelations args seen)
            /\ (@processNestedRelations Faulty.hydrator_throws seen).2
               = Some (Thrown (JStr "relation lookup failed")))
    by (vm_compute; do 2 eexists; split; reflexivity).
  destruct Hlast as (args & seen & Hlast & Hthrown).
  exists args, seen. split; [exact Hlast|]. split; [exact Hthrown|].
  apply last_Some in Hlast as [before Htrace].
  apply (proj2 (proj2 (proj2 (proj2
           (@collaborator_failure_ends_the_call Faulty.hydrator_throws
              Toy.close_two_with_relations
              (Thrown (JStr "relation lookup failed")))))) args seen);
    [|exact Hthrown].
  rewrite Htrace. apply in_or_app. right. now left.
Defined.

(** X4.  A call reads at most once and writes at most once.  The update
    statement is issued only after the read returned at least one row, and
    it carries the caller's data as [formatData] formatted it. *)
Theorem update_only_after_nonempty_snapshot `{Platform} (ea : ExecutionArgs) :
  let meta := objectMetadataItemWithFieldMaps (ea_options ea) in
  let m := (execute ea initial).2 in
  (length (calls is_read m) <= 1)%nat
  /\ (length (calls is_write m) <= 1)%nat
  /\ (forall b q data, In (EvUpdate b q data) (trace m) ->
        data = formatData (args_data (ea_args ea)) meta
        /\ exists q1 rows,
             calls is_read m = [EvGetMany 1 q1]
             /\ getMany q1 = inr rows /\ rows <> []).
Proof.
  cbv zeta. destruct (execute_cases ea) as [-> | [e ->]].
  - resolve_cases; cbn; unfold calls; cbn;
      (split; [lia|]); (split; [lia|]);
      intros b' q' data' Hin; in_trace;
      inversion Hin; subst; (split; [reflexivity|]);
      do 2 eexists; (split; [reflexivity|]); (split; [eassumption|]);
      intros ->; discriminate.
  - cbn. split; [lia|]. split; [lia|]. intros ? ? ? [].
Qed.

Lemma update_only_after_nonempty_snapshot_witness :
  let data := [("status", JStr "done")] in
  let q := [("task", Some (Toy.id_in [Toy.uuidA; Toy.uuidB]))] in
  In (@EvUpdate Toy.platform 0 q data)
     (trace (@execute Toy.platform Toy.close_two initial).2)
  /\ exists q1 rows, @getMany Toy.platform q1 = inr rows /\ rows <> [].
Proof.
  intros data q.
  assert (Hin : In (@EvUpdate Toy.platform 0 q data)
                  (trace (@execute Toy.platform Toy.close_two initial).2))
    by (vm_compute; do 5 right; left; reflexivity).
  split; [exact Hin|].
  destruct (proj2 (proj2 (@update_only_after_nonempty_snapshot Toy.platform
                            Toy.close_two)) _ _ _ Hin)
    as (_ & q1 & rows & _ & Hget & Hrows).
  exists q1, rows. split; assumption.
Defined.

(** X5.  Nothing is undone when a call fails late.  If the emitter throws,
    the update statement has been executed and the hydrator is not called;
    if the hydrator throws, the update statement has been executed and the
    event has been emitted. *)
Theorem late_failure_keeps_the_mutation `{Platform} (ea : ExecutionArgs)
    (stage : Stage) (e : Exn) :
  let m := (execute ea initial).2 in
  (execute ea initial).1 = inl (stage, e) ->
  (stage = EmittingEvent ->
     length (calls is_write m) = 1 /\ length (calls is_emit m) = 1
     /\ calls is_hydrate m = [])
  /\ (stage = HydratingRelations ->
        length (calls is_write m) = 1 /\ length (calls is_emit m) = 1
        /\ length (calls is_hydrate m) = 1).
Proof.
  cbv zeta. destruct (execute_cases ea) as [-> | [e' ->]].
  - resolve_cases; cbn; unfold calls; cbn; intros Hres; inversion Hres; subst;
      split; intros Hs; try discriminate Hs; auto.
  - cbn. intros [= <- <-]. split; discriminate.
Qed.

Lemma late_failure_keeps_the_mutation_witness :
  let run := @execute Faulty.hydrator_throws Toy.close_two_with_relations initial in
  run.1 = inl (HydratingRelations, Thrown (JStr "relation lookup failed"))
  /\ length (calls is_write run.2) = 1
  /\ length (calls is_emit run.2) = 1.
Proof.
  intros run. split; [reflexivity|].
  destruct (proj2 (@late_failure_keeps_the_mutation Faulty.hydrator_throws
                     Toy.close_two_with_relations _ _ eq_refl) eq_refl)
    as (Hw & He & _).
  split; assumption.
Defined.



(** X7.  [roleId], [workspaceDataSource] and [isExecutedByApiKey] reach
    nothing but the hydrator.  Without selected relations a call runs the
    same whatever they are: same calls, same stores, same result. *)
Theorem hydrator_arguments_unused_without_relations `{Platform}
    (ea : ExecutionArgs) (roleId workspaceDataSource : JsVal)
    (isExecutedByApiKey : bool) :
  truthy (ea_relations ea) = false ->
  resolve {| ea_args := ea_args ea;
             ea_options := ea_options ea;
             ea_roleId := roleId;
             ea_relations := ea_relations ea;
             ea_workspaceDataSource := workspaceDataSource;
             ea_isExecutedByApiKey := isExecutedByApiKey |} initial
  = resolve ea initial.
Proof.
  intros Hrel. rewrite !resolve_initial. cbv zeta.
  cbn [ea_args ea_options ea_relations ea_roleId ea_workspaceDataSource
       ea_isExecutedByApiKey].
  rewrite Hrel. reflexivity.
Qed.

Lemma hydrator_arguments_unused_without_relations_witness :
  @resolve Toy.platform
    (Toy.call Toy.taskMeta (Some (Toy.id_in [Toy.uuidA; Toy.uuidB]))
       [("status", JStr "done")] JUndefined) initial
  = @resolve Toy.platform
      {| ea_args := ea_args Toy.close_two;
         ea_options := ea_options Toy.close_two;
         ea_roleId := JNull;
         ea_relations := JUndefined;
         ea_workspaceDataSource := JStr "other";
         ea_isExecutedByApiKey := true |} initial.
Proof.
  symmetry.
  exact (@hydrator_arguments_unused_without_relations Toy.platform
           Toy.close_two JNull (JStr "other") true eq_refl).
Defined.

(** * Properties of the webhook form hook *)

Module WebhookFormFacts.

Import WebhookForm.

(** ** [new Set] *)

Lemma existsb_eqb_In (x : string) (set : list string) :
  existsb (String.eqb x) set = true <-> In x set.
Proof.
  rewrite existsb_exists. split.
  - intros (y & Hy & Heq). apply String.eqb_eq in Heq. now subst.
  - intros Hin. exists x. split; [exact Hin | apply String.eqb_refl].
Qed.

Lemma Set_add_In (set : list string) (x y : string) :
  In y (Set_add set x) <-> In y set \/ y = x.
Proof.
  unfold Set_add. destruct (existsb (String.eqb x) set) eqn:Hx.
  - apply existsb_eqb_In in Hx. split; [auto|]. intros [Hy | ->]; assumption.
  - rewrite in_app_iff. cbn. intuition.
Qed.

Lemma Set_add_NoDup (set : list string) (x : string) :
  NoDup set -> NoDup (Set_add set x).
Proof.
  intros Hnd. unfold Set_add. destruct (existsb (String.eqb x) set) eqn:Hx.
  - exact Hnd.
  - apply NoDup_app. split; [exact Hnd|]. split; [|apply NoDup_singleton].
    intros y Hy Hyx. apply list_elem_of_In in Hy.
    apply list_elem_of_singleton in Hyx. subst y.
    apply existsb_eqb_In in Hy. congruence.
Qed.

Lemma fold_Set_add_In (xs set : list string) (y : string) :
  In y (fold_left Set_add xs set) <-> In y set \/ In y xs.
Proof.
  revert set. induction xs as [|x xs IH]; intros set; cbn.
  - intuition.
  - rewrite IH, Set_add_In. intuition.
Qed.

Lemma fold_Set_add_NoDup (xs set : list string) :
  NoDup set -> NoDup (fold_left Set_add xs set).
Proof.
  revert set. induction xs as [|x xs IH]; intros set Hnd; cbn; [exact Hnd|].
  apply IH. now apply Set_add_NoDup.
Qed.

Lemma fold_Set_add_distinct (xs set : list string) :
  NoDup (set ++ xs) -> fold_left Set_add xs set = set ++ xs.
Proof.
  revert set. induction xs as [|x xs IH]; intros set Hnd; cbn.
  - now rewrite app_nil_r.
  - assert (Hx : existsb (String.eqb x) set = false).
    { apply not_true_is_false. intros Hin. apply existsb_eqb_In in Hin.
      apply NoDup_app in Hnd as (_ & Hdisj & _).
      apply (Hdisj x); [now apply list_elem_of_In | apply list_elem_of_here]. }
    unfold Set_add at 2. rewrite Hx.
    rewrite IH; rewrite <- app_assoc; [reflexivity | exact Hnd].
Qed.

Lemma fold_Set_add_sublist (xs set : list string) :
  fold_left Set_add xs set `sublist_of` set ++ xs.
Proof.
  revert set. induction xs as [|x xs IH]; intros set; cbn.
  - now rewrite app_nil_r.
  - etransitivity; [apply IH|].
    unfold Set_add. destruct (existsb (String.eqb x) set).
    + apply sublist_app; [reflexivity | now apply sublist_cons].
    + now rewrite <- app_assoc.
Qed.

(** A [Set] enumerates its elements in the order in which they were first
    added: an element that comes earlier in the set occurs in the input
    before any occurrence of one that comes later. *)
Lemma fold_Set_add_first_appearance (xs : list string) (i j : nat)
    (s t : string) :
  (i < j)%nat ->
  fold_left Set_add xs [] !! i = Some s ->
  fold_left Set_add xs [] !! j = Some t ->
  exists k, xs !! k = Some s /\ forall k', xs !! k' = Some t -> (k < k')%nat.
Proof.
  revert i j s t. induction xs as [|x xs IH] using rev_ind; intros i j s t Hij.
  - cbn. intros Hs. discriminate Hs.
  - rewrite fold_left_app. cbn [fold_left].
    set (seen := fold_left Set_add xs []) in *.
    assert (Hold : forall i' j' s' t', (i' < j')%nat ->
              seen !! i' = Some s' -> seen !! j' = Some t' ->
              exists k, (xs ++ [x]) !! k = Some s'
                /\ forall k', (xs ++ [x]) !! k' = Some t' -> (k < k')%nat).
    { intros i' j' s' t' Hlt Hs Ht.
      destruct (IH i' j' s' t' Hlt Hs Ht) as (k & Hk & Hfirst).
      exists k. split; [now apply lookup_app_l_Some|].
      intros k' Hk'. apply lookup_app_Some in Hk' as [Hk'|[Hlen _]].
      - now apply Hfirst.
      - apply lookup_lt_Some in Hk. lia. }
    unfold Set_add. destruct (existsb (String.eqb x) seen) eqn:Hx.
    + now apply Hold.
    + intros Hs Ht.
      assert (Hnew : ~ In x xs).
      { intros Hin. apply not_true_iff_false in Hx. apply Hx.
        apply existsb_eqb_In. apply (fold_Set_add_In xs []). now right. }
      apply lookup_app_Some in Ht as [Ht|[Hlen Ht]].
      * apply lookup_lt_Some in Ht as Hj.
        rewrite lookup_app_l in Hs by lia. now apply (Hold i j).
      * destruct (j - length seen)%nat as [|n] eqn:Hn; [|discriminate Ht].
        cbn in Ht. injection Ht as <-.
        rewrite lookup_app_l in Hs by lia.
        assert (Hin : In s xs).
        { apply list_elem_of_lookup_2, list_elem_of_In in Hs.
          apply (fold_Set_add_In xs []) in Hs as [[]|Hs]. exact Hs. }
        apply list_elem_of_In, list_elem_of_lookup_1 in Hin as [k Hk].
        exists k. split; [now apply lookup_app_l_Some|].
        intros k' Hk'. apply lookup_app_Some in Hk' as [Hk'|[Hlen' _]].
        -- exfalso. apply Hnew.
           now apply list_elem_of_lookup_2, list_elem_of_In in Hk'.
        -- apply lookup_lt_Some in Hk. lia.
Qed.

(** ** [split] *)

Lemma split_dot_segment (o rest : string) :
  dot_free o = true ->
  split_dot (String.append o (String "." rest)) = o :: split_dot rest.
Proof.
  induction o as [|c o IH]; cbn [String.append split_dot dot_free].
  - intros _. reflexivity.
  - intros Hfree. apply andb_prop in Hfree as [Hc Ho].
    apply negb_true_iff in Hc.
    change (split_dot (String c (String.append o (String "." rest)))
            = String c o :: split_dot rest).
    cbn [split_dot]. rewrite Hc, (IH Ho). reflexivity.
Qed.

Lemma split_dot_last (a : string) :
  dot_free a = true -> split_dot a = [a].
Proof.
  induction a as [|c a IH]; cbn [split_dot dot_free]; [reflexivity|].
  intros Hfree. apply andb_prop in Hfree as [Hc Ha].
  apply negb_true_iff in Hc. rewrite Hc, (IH Ha). reflexivity.
Qed.


(** ** [addEmptyOperationIfNecessary] *)

Lemma addEmptyOperationIfNecessary_nonempty (WEBHOOK_EMPTY_OPERATION : Operation)
    (newOperations : list Operation) :
  addEmptyOperationIfNecessary WEBHOOK_EMPTY_OPERATION newOperations <> [].
Proof.
  unfold addEmptyOperationIfNecessary.
  destruct newOperations as [|op rest]; [discriminate|].
  match goal with |- context [if ?c then _ else _] => destruct c end;
    discriminate.
Qed.

(** ** [cleanAndFormatOperations] *)

Lemma cleanAndFormatOperations_NoDup (isDefined : Field -> bool)
    (operations : list Operation) :
  NoDup (cleanAndFormatOperations isDefined operations).
Proof.
  unfold cleanAndFormatOperations, Array_from_Set.
  apply fold_Set_add_NoDup, NoDup_nil_2.
Qed.

End WebhookFormFacts.

Module WebhookFormClaims.

Import WebhookForm WebhookFormFacts.

(** X8.  [addEmptyOperationIfNecessary] returns the list it was given or
    that list followed by the empty operation, the first exactly when the
    list has a row with object and action ["*"] or a row whose object is
    [null]; it never returns the empty list. *)
Theorem addEmptyOperationIfNecessary_result
    (WEBHOOK_EMPTY_OPERATION : Operation) (newOperations : list Operation) :
  let result := addEmptyOperationIfNecessary WEBHOOK_EMPTY_OPERATION newOperations in
  result <> []
  /\ (result = newOperations \/ result = newOperations ++ [WEBHOOK_EMPTY_OPERATION])
  /\ (result = newOperations <->
      existsb is_wildcard newOperations || existsb object_is_null newOperations
      = true).
Proof.
  cbv zeta. unfold addEmptyOperationIfNecessary.
  destruct (existsb is_wildcard newOperations) eqn:Hw;
    [|destruct (existsb object_is_null newOperations) eqn:Hn]; cbn.
  - split; [|split; [now left | tauto]].
    intros ->. discriminate Hw.
  - split; [|split; [now left | tauto]].
    intros ->. discriminate Hn.
  - split; [|split; [now right|]].
    + now destruct newOperations.
    + split; [|discriminate]. intros Heq.
      apply (f_equal length) in Heq. rewrite length_app in Heq. cbn in Heq. lia.
Qed.

(** X9.  When the empty operation itself has a [null] object, or object and
    action ["*"], applying [addEmptyOperationIfNecessary] a second time
    changes nothing: there is never more than one row added. *)
Theorem addEmptyOperationIfNecessary_idempotent
    (WEBHOOK_EMPTY_OPERATION : Operation) (newOperations : list Operation) :
  is_wildcard WEBHOOK_EMPTY_OPERATION || object_is_null WEBHOOK_EMPTY_OPERATION
  = true ->
  addEmptyOperationIfNecessary WEBHOOK_EMPTY_OPERATION
    (addEmptyOperationIfNecessary WEBHOOK_EMPTY_OPERATION newOperations)
  = addEmptyOperationIfNecessary WEBHOOK_EMPTY_OPERATION newOperations.
Proof.
  intros Hempty. unfold addEmptyOperationIfNecessary at 2.
  destruct (negb (existsb is_wildcard newOperations)
            && negb (existsb object_is_null newOperations)) eqn:Hcond.
  - unfold addEmptyOperationIfNecessary. rewrite !existsb_app. cbn.
    rewrite !orb_false_r.
    apply andb_prop in Hcond as [Hw Hn].
    apply negb_true_iff in Hw, Hn. rewrite Hw, Hn. cbn.
    apply orb_prop in Hempty as [-> | ->]; cbn; [reflexivity|].
    now rewrite andb_false_r.
  - unfold addEmptyOperationIfNecessary. now rewrite Hcond.
Qed.

Lemma addEmptyOperationIfNecessary_idempotent_witness :
  addEmptyOperationIfNecessary sample_empty_operation
    (addEmptyOperationIfNecessary sample_empty_operation sample_operations)
  = sample_operations ++ [sample_empty_operation].
Proof.
  rewrite (addEmptyOperationIfNecessary_idempotent sample_empty_operation
             sample_operations eq_refl).
  reflexivity.
Defined.

(** X10.  [cleanAndFormatOperations] yields every ["object.action"] of a row
    whose object and action are both defined, once each and in the order of
    first appearance, and nothing else: when [s] comes before [t] in the
    result, [s] occurs among the formatted rows before any occurrence of
    [t]. *)
Theorem cleanAndFormatOperations_distinct (isDefined : Field -> bool)
    (operations : list Operation) :
  let defined :=
    List.filter (fun op => isDefined (op_object op) && isDefined (op_action op))
      operations in
  let formatted := map format_operation defined in
  let result := cleanAndFormatOperations isDefined operations in
  NoDup result
  /\ result `sublist_of` formatted
  /\ (forall s, In s result <->
        exists op, In op operations
          /\ isDefined (op_object op) = true /\ isDefined (op_action op) = true
          /\ s = format_operation op)
  /\ (forall i j s t, (i < j)%nat ->
        result !! i = Some s -> result !! j = Some t ->
        exists k, formatted !! k = Some s
          /\ forall k', formatted !! k' = Some t -> (k < k')%nat).
Proof.
  cbv zeta. split; [apply cleanAndFormatOperations_NoDup|].
  unfold cleanAndFormatOperations, Array_from_Set.
  split; [apply (fold_Set_add_sublist _ [])|].
  split; [|apply fold_Set_add_first_appearance].
  intros s. rewrite fold_Set_add_In, in_map_iff. split.
  - intros [[]|(op & <- & Hop)]. apply filter_In in Hop as [Hin Hdef].
    apply andb_prop in Hdef as [Ho Ha]. exists op. auto.
  - intros (op & Hin & Ho & Ha & ->). right. exists op.
    split; [reflexivity|]. apply filter_In. now rewrite Ho, Ha.
Qed.

Lemma cleanAndFormatOperations_distinct_witness :
  let operations :=
    [operation "person" "created"; operation "company" "*";
     sample_empty_operation; operation "person" "created"] in
  cleanAndFormatOperations sample_isDefined operations
  = ["person.created"; "company.*"]
  /\ exists k,
       ["person.created"; "company.*"; "person.created"] !! k
       = Some "person.created"
       /\ forall k',
            ["person.created"; "company.*"; "person.created"] !! k'
            = Some "company.*" -> (k < k')%nat.
Proof.
  cbv zeta. split; [reflexivity|].
  exact (proj2 (proj2 (proj2
           (cleanAndFormatOperations_distinct sample_isDefined
              [operation "person" "created"; operation "company" "*";
               sample_empty_operation; operation "person" "created"])))
           0%nat 1%nat "person.created" "company.*"
           ltac:(lia) eq_refl eq_refl).
Defined.

Lemma parse_format_operation (object action : string) :
  dot_free object = true -> dot_free action = true ->
  parse_operation (format_operation (operation object action))
  = operation object action.
Proof.
  intros Ho Ha. unfold parse_operation, format_operation, operation.
  cbn [op_object op_action toStr].
  change (String.append "." action) with (String "." action).
  now rewrite (split_dot_segment object action Ho), (split_dot_last action Ha).
Qed.

Lemma NoDup_map_left_inverse {A B : Type} (g : A -> B) (h : B -> A) (l : list A) :
  (forall x, In x l -> h (g x) = x) -> NoDup l -> NoDup (map g l).
Proof.
  induction l as [|x l IH]; intros Hinv Hnd; cbn; [apply NoDup_nil_2|].
  apply NoDup_cons in Hnd as [Hx Hnd]. apply NoDup_cons. split.
  - intros Hin. apply list_elem_of_In, in_map_iff in Hin as (y & Hy & Hyin).
    apply Hx, list_elem_of_In.
    rewrite <- (Hinv x (or_introl eq_refl)), <- Hy, (Hinv y (or_intror Hyin)).
    exact Hyin.
  - apply IH; [|exact Hnd]. intros y Hy. apply Hinv. now right.
Qed.

(** X11.  What is saved loads back.  For distinct rows whose object and
    action are strings without a dot, the strings [cleanAndFormatOperations]
    stores are parsed by [onCompleted] into the same rows, in the same
    order. *)
Theorem saved_operations_load_back (isDefined : Field -> bool)
    (operations : list Operation) (data : WebhookData) :
  (forall s, isDefined (Str s) = true) ->
  (forall op, In op operations ->
     exists object action, op = operation object action
       /\ dot_free object = true /\ dot_free action = true) ->
  NoDup operations ->
  wd_operations data = Some (cleanAndFormatOperations isDefined operations) ->
  baseOperations data = operations.
Proof.
  intros Hdefined Hshape Hnd Hdata.
  unfold baseOperations. rewrite Hdata. unfold cleanAndFormatOperations.
  assert (Hkeep : List.filter
            (fun op => isDefined (op_object op) && isDefined (op_action op))
            operations = operations).
  { apply forallb_filter_id, forallb_forall. intros op Hop.
    destruct (Hshape op Hop) as (o & a & -> & _). cbn. now rewrite !Hdefined. }
  rewrite Hkeep.
  assert (Hinv : forall op, In op operations ->
            parse_operation (format_operation op) = op).
  { intros op Hop. destruct (Hshape op Hop) as (o & a & -> & Ho & Ha).
    now apply parse_format_operation. }
  unfold Array_from_Set. rewrite fold_Set_add_distinct.
  - cbn [app]. rewrite map_map. rewrite <- (map_id operations) at 2.
    now apply map_ext_in.
  - cbn [app]. now apply (NoDup_map_left_inverse _ parse_operation).
Qed.

Lemma saved_operations_load_back_witness :
  baseOperations
    {| wd_operations := Some (cleanAndFormatOperations sample_isDefined
                                sample_operations);
       wd_operation := Undefined; wd_targetUrl := Undefined;
       wd_description := Undefined; wd_secret := Undefined |}
  = sample_operations.
Proof.
  apply (saved_operations_load_back sample_isDefined); try reflexivity.
  - intros op [<-|[<-|[]]].
    + exists "person", "created". repeat split.
    + exists "company", "*". repeat split.
  - unfold sample_operations. apply NoDup_cons. split.
    + intros Hin. apply list_elem_of_singleton in Hin. discriminate Hin.
    + apply NoDup_singleton.
Defined.



Lemma filter_index_all {A : Type} (keep : nat -> bool) (k : nat) (l : list A) :
  (forall i, (k <= i < k + length l)%nat -> keep i = true) ->
  filter_index keep k l = l.
Proof.
  revert k. induction l as [|x l IH]; intros k Hkeep; cbn; [reflexivity|].
  rewrite Hkeep by (cbn; lia). f_equal. apply IH. intros i Hi.
  apply Hkeep. cbn. lia.
Qed.

Lemma filter_index_delete {A : Type} (index : Z) (k j : nat) (l : list A) :
  index = Z.of_nat (k + j) -> (j < length l)%nat ->
  filter_index (fun i => negb (Z.of_nat i =? index)%Z) k l = delete j l.
Proof.
  revert k j. induction l as [|x l IH]; intros k j Hindex Hj; cbn in Hj; [lia|].
  cbn [filter_index]. destruct j as [|j].
  - replace (Z.of_nat k =? index)%Z with true by (symmetry; apply Z.eqb_eq; lia).
    cbn. apply filter_index_all. intros i Hi.
    apply negb_true_iff, Z.eqb_neq. lia.
  - replace (Z.of_nat k =? index)%Z with false by (symmetry; apply Z.eqb_neq; lia).
    cbn. f_equal. apply IH; lia.
Qed.

(** X13.  [removeOperation] takes out the row at the index and no other; an
    index that is negative or past the end takes out nothing.  What is left
    goes through [addEmptyOperationIfNecessary], so removing the last row
    leaves the empty operation and never an empty list. *)
Theorem removeOperation_removes_one_row
    (WEBHOOK_EMPTY_OPERATION : Operation) (index : Z)
    (currentOperations : list Operation) :
  let result := removeOperation WEBHOOK_EMPTY_OPERATION index currentOperations in
  ((0 <= index < Z.of_nat (length currentOperations))%Z ->
     result = addEmptyOperationIfNecessary WEBHOOK_EMPTY_OPERATION
                (delete (Z.to_nat index) currentOperations))
  /\ ((index < 0 \/ Z.of_nat (length currentOperations) <= index)%Z ->
        result = addEmptyOperationIfNecessary WEBHOOK_EMPTY_OPERATION
                   currentOperations)
  /\ result <> []
  /\ (length currentOperations <= 1 -> (0 <= index < 1)%Z ->
        result = [WEBHOOK_EMPTY_OPERATION])%nat.
Proof.
  cbv zeta. unfold removeOperation.
  assert (Hin : (0 <= index < Z.of_nat (length currentOperations))%Z ->
    filter_index (fun i => negb (Z.of_nat i =? index)%Z) 0 currentOperations
    = delete (Z.to_nat index) currentOperations).
  { intros Hrange. apply filter_index_delete; lia. }
  split; [intros Hrange; now rewrite Hin|]. split; [|split].
  - intros Hout. rewrite filter_index_all; [reflexivity|].
    intros i Hi. apply negb_true_iff, Z.eqb_neq. lia.
  - apply addEmptyOperationIfNecessary_nonempty.
  - intros Hlen Hindex. assert (index = 0%Z) as -> by lia.
    destruct currentOperations as [|op [|op' rest]]; cbn in Hlen;
      [reflexivity | reflexivity | lia].
Qed.

Lemma removeOperation_removes_one_row_witness :
  removeOperation sample_empty_operation 0 sample_operations
  = [operation "company" "*"; sample_empty_operation]
  /\ removeOperation sample_empty_operation 0 [operation "*" "*"]
     = [sample_empty_operation].
Proof.
  split.
  - rewrite (proj1 (removeOperation_removes_one_row sample_empty_operation 0
                      sample_operations)) by (cbn; lia).
    reflexivity.
  - apply (proj2 (proj2 (proj2 (removeOperation_removes_one_row
             sample_empty_operation 0 [operation "*" "*"])))); cbn; lia.
Defined.

Lemma some_element_dense (p : Operation -> bool) (operations : list Operation) :
  some_element p (map Some operations) = existsb p operations.
Proof.
  unfold some_element. induction operations as [|op l IH]; cbn; [reflexivity|].
  now rewrite IH.
Qed.

Lemma addEmptyOperationIfNecessary_dense
    (WEBHOOK_EMPTY_OPERATION : Operation) (operations : list Operation) :
  addEmptyOperationIfNecessary_sparse WEBHOOK_EMPTY_OPERATION
    (map Some operations)
  = map Element (addEmptyOperationIfNecessary WEBHOOK_EMPTY_OPERATION operations).
Proof.
  unfold addEmptyOperationIfNecessary_sparse, addEmptyOperationIfNecessary,
    spread, kept.
  rewrite !some_element_dense.
  destruct (negb (existsb is_wildcard operations)
            && negb (existsb object_is_null operations)).
  - now rewrite map_app, !map_map.
  - now rewrite map_map.
Qed.

(** X14.  For an index in range, [updateOperation] sets the one field of
    the one row, leaves the other field of that row and all other rows as
    they were, and hands on a list without holes, with the empty operation
    appended when [addEmptyOperationIfNecessary] asks for it. *)
Theorem updateOperation_in_range (WEBHOOK_EMPTY_OPERATION : Operation)
    (index : Z) (field : OperationField) (value : Field)
    (currentOperations : list Operation) (op : Operation) :
  (0 <= index)%Z ->
  currentOperations !! Z.to_nat index = Some op ->
  let updated :=
    <[Z.to_nat index := set_field op field value]> currentOperations in
  updateOperation WEBHOOK_EMPTY_OPERATION index field value currentOperations
  = map Element (addEmptyOperationIfNecessary WEBHOOK_EMPTY_OPERATION updated)
  /\ length updated = length currentOperations
  /\ (forall j, j <> Z.to_nat index -> updated !! j = currentOperations !! j)
  /\ updated !! Z.to_nat index = Some (set_field op field value)
  /\ match field with
     | FObject => op_action (set_field op field value) = op_action op
     | FAction => op_object (set_field op field value) = op_object op
     end.
Proof.
  intros Hpos Hop updated. subst updated.
  split; [|split; [apply length_insert|split; [|split]]].
  - unfold updateOperation, assign_operation.
    replace (index <? 0)%Z with false by (symmetry; apply Z.ltb_ge; lia).
    rewrite Hop. apply addEmptyOperationIfNecessary_dense.
  - intros j Hj. now apply list_lookup_insert_ne.
  - apply list_lookup_insert_eq. now apply lookup_lt_Some in Hop.
  - now destruct field.
Qed.

Lemma updateOperation_in_range_witness :
  updateOperation sample_empty_operation 0 FObject (Str "person")
    [operation "*" "*"]
  = [Element (operation "person" "*"); Element sample_empty_operation].
Proof.
  rewrite (proj1 (updateOperation_in_range sample_empty_operation 0 FObject
                    (Str "person") [operation "*" "*"] (operation "*" "*")
                    (Z.le_refl 0) eq_refl)).
  reflexivity.
Defined.



(** ** The handlers *)

Section HandlerClaims.

Variable WEBHOOK_EMPTY_OPERATION : Operation.
Variable isDefined : Field -> bool.
Variable trim : string -> string.
Variable v4 : string.
Variable throws : Call -> option Thrown.
Variable created : string -> WebhookInput -> option CreatedWebhook.

#[local] Abbreviation handleCreate :=
  (WebhookForm.handleCreate isDefined trim v4 throws created).
#[local] Abbreviation handleUpdate := (WebhookForm.handleUpdate isDefined trim throws).
#[local] Abbreviation handleSave :=
  (WebhookForm.handleSave isDefined trim v4 throws created).
#[local] Abbreviation deleteWebhook := (WebhookForm.deleteWebhook throws).
#[local] Abbreviation webhookData := (WebhookForm.webhookData isDefined trim).

Ltac run_handler :=
  unfold WebhookForm.handleSave, WebhookForm.handleCreate,
    WebhookForm.handleUpdate, WebhookForm.deleteWebhook, createOneRecord,
    report in *;
  unfold try_catch, hbind, call, hret in *;
  cbn [app] in *.

(** X16.  Without a webhook id -- none, or the empty string -- the update
    and the delete handler send nothing to the server: all they do is show
    the error that the id is required. *)
Theorem no_request_without_webhook_id (webhookId : option string)
    (formValues : FormValues) :
  id_missing webhookId = true ->
  (handleUpdate webhookId formValues []).2
    = [EnqueueErrorSnackBar (Some WebhookIdRequiredForUpdates) None]
  /\ (handleSave Edit webhookId formValues []).2
     = [EnqueueErrorSnackBar (Some WebhookIdRequiredForUpdates) None]
  /\ (deleteWebhook webhookId []).2
     = [EnqueueErrorSnackBar (Some WebhookIdRequiredForDeletion) None].
Proof.
  intros Hmissing. run_handler.
  destruct webhookId as [id|]; cbn in Hmissing; rewrite ?Hmissing;
    repeat split;
    match goal with |- context [throws ?c] => now destruct (throws c) end.
Qed.

(** X17.  When the request to the server throws, the handler shows the
    error and does nothing else: no success message, no navigation, no
    reset of the form.  The error is passed to the snack bar only if it is
    an [ApolloError]. *)
Theorem failed_request_is_reported (webhookId : string)
    (formValues : FormValues) (error : Thrown) :
  let shown := EnqueueErrorSnackBar None (apollo_only error) in
  (throws (CreateOneRecord v4 (webhookData formValues)) = Some error ->
     (handleCreate formValues []).2
     = [CreateOneRecord v4 (webhookData formValues); shown])
  /\ (webhookId <> "" ->
      throws (UpdateOneRecord webhookId (webhookData formValues)) = Some error ->
      (handleUpdate (Some webhookId) formValues []).2
      = [UpdateOneRecord webhookId (webhookData formValues); shown])
  /\ (webhookId <> "" ->
      throws (DeleteOneRecord webhookId) = Some error ->
      (deleteWebhook (Some webhookId) []).2
      = [DeleteOneRecord webhookId; shown]).
Proof.
  cbv zeta. split; [|split].
  - intros Hthrows. run_handler. rewrite Hthrows. cbn.
    now destruct (throws (EnqueueErrorSnackBar _ _)).
  - intros Hid Hthrows. apply String.eqb_neq in Hid. run_handler.
    rewrite Hid. rewrite Hthrows. cbn.
    now destruct (throws (EnqueueErrorSnackBar _ _)).
  - intros Hid Hthrows. apply String.eqb_neq in Hid. run_handler.
    rewrite Hid, Hthrows. cbn. now destruct (throws (EnqueueErrorSnackBar _ _)).
Qed.

(** X18.  A save sends at most one request.  A create request carries the
    generated id, an update request the id of the webhook, which is not
    empty; both carry the trimmed target URL and the operations as
    [cleanAndFormatOperations] leaves them, without duplicates. *)
Theorem save_request_carries_clean_data (mode : WebhookFormMode)
    (webhookId : option string) (formValues : FormValues) :
  let log := (handleSave mode webhookId formValues []).2 in
  (length (List.filter is_request log) <= 1)%nat
  /\ (forall c, In c log -> is_request c = true ->
        (c = CreateOneRecord v4 (webhookData formValues) /\ mode = Create
         \/ exists id, c = UpdateOneRecord id (webhookData formValues)
              /\ mode = Edit /\ webhookId = Some id /\ id <> ""))
  /\ wi_targetUrl (webhookData formValues) = trim (fv_targetUrl formValues)
  /\ NoDup (wi_operations (webhookData formValues)).
Proof.
  cbv zeta. split; [|split; [|split; [reflexivity|]]].
  - destruct mode; [|destruct webhookId as [id|];
                      [destruct (String.eqb id "") eqn:Hid|]];
      run_handler; rewrite ?Hid;
      repeat match goal with
        | |- context [throws ?c] => destruct (throws c); cbn
        | |- context [created ?i ?d] => destruct (created i d); cbn
        end; lia.
  - intros c. destruct mode; [|destruct webhookId as [id|];
                      [destruct (String.eqb id "") eqn:Hid|]];
      run_handler; rewrite ?Hid;
      repeat match goal with
        | |- context [throws ?c] => destruct (throws c); cbn
        | |- context [created ?i ?d] => destruct (created i d); cbn
        end;
      intros Hin Hreq;
      repeat match goal with
        | Hin : _ \/ _ |- _ => destruct Hin as [Hin|Hin]
        | Hin : False |- _ => destruct Hin
        end; subst c; try discriminate Hreq; auto;
      right; exists id; apply String.eqb_neq in Hid; auto.
  - apply cleanAndFormatOperations_NoDup.
Qed.

(** X19.  When the create request and the success message go through, the
    handler has made these calls, in this order: the request, the success
    message with the target URL of the created record (empty if there is
    none), the navigation -- to the detail page of the created record and
    with its id, or to the list of webhooks when the request resolved to
    nothing.  The error snack bar is shown only if the navigation throws. *)
Theorem handleCreate_success (formValues : FormValues) :
  let request := CreateOneRecord v4 (webhookData formValues) in
  let createdWebhook := created v4 (webhookData formValues) in
  let message :=
    EnqueueSuccessSnackBar
      (WebhookCreatedSuccessfully
         (match createdWebhook with
          | Some w => or_empty (cw_targetUrl w)
          | None => ""
          end)) in
  let navigation :=
    match createdWebhook with
    | Some w => Navigate WebhookDetail (Some (cw_id w))
    | None => Navigate Webhooks None
    end in
  throws request = None ->
  throws message = None ->
  (handleCreate formValues []).2
  = [request; message; navigation]
    ++ match throws navigation with
       | Some error => [EnqueueErrorSnackBar None (apollo_only error)]
       | None => []
       end.
Proof.
  cbv zeta. intros Hrequest Hmessage. run_handler.
  rewrite Hrequest. cbn. rewrite Hmessage. cbn.
  destruct (throws (match created v4 (webhookData formValues) with
                    | Some w => Navigate WebhookDetail (Some (cw_id w))
                    | None => Navigate Webhooks None
                    end)) as [error|]; cbn; [|reflexivity].
  now destruct (throws (EnqueueErrorSnackBar _ _)).
Qed.

(** X20.  When the update request goes through, the form is reset to the
    values as they were submitted, target URL untrimmed, and the success
    message names the trimmed target URL that was sent; the handler does not
    navigate. *)
Theorem handleUpdate_success (webhookId : string) (formValues : FormValues) :
  let request := UpdateOneRecord webhookId (webhookData formValues) in
  let message :=
    EnqueueSuccessSnackBar
      (WebhookUpdatedSuccessfully (trim (fv_targetUrl formValues))) in
  webhookId <> "" ->
  throws request = None ->
  throws (FormReset formValues) = None ->
  (handleUpdate (Some webhookId) formValues []).2
  = [request; FormReset formValues; message]
    ++ match throws message with
       | Some error => [EnqueueErrorSnackBar None (apollo_only error)]
       | None => []
       end.
Proof.
  cbv zeta. intros Hid Hrequest Hreset. apply String.eqb_neq in Hid.
  run_handler. rewrite Hid. rewrite Hrequest. cbn.
  rewrite Hreset. cbn.
  change (wi_targetUrl (webhookData formValues))
    with (trim (fv_targetUrl formValues)).
  destruct (throws (EnqueueSuccessSnackBar _)) as [error|]; cbn; [|reflexivity].
  now destruct (throws (EnqueueErrorSnackBar _ _)).
Qed.

(** X21.  A handler catches whatever the server, the success message, the
    navigation or the reset throws: it ends with an exception only if the
    error snack bar itself threw it. *)
Theorem handlers_fail_only_in_the_error_snackbar (mode : WebhookFormMode)
    (webhookId : option string) (formValues : FormValues) (error : Thrown) :
  ((handleSave mode webhookId formValues []).1 = inl error ->
     exists c, In c (handleSave mode webhookId formValues []).2
       /\ is_error_snackbar c = true /\ throws c = Some error)
  /\ ((deleteWebhook webhookId []).1 = inl error ->
        exists c, In c (deleteWebhook webhookId []).2
          /\ is_error_snackbar c = true /\ throws c = Some error).
Proof.
  split.
  - destruct mode; [|destruct webhookId as [id|];
                      [destruct (String.eqb id "") eqn:Hid|]];
      run_handler; rewrite ?Hid;
      repeat match goal with
        | |- context [throws ?c] => destruct (throws c) eqn:?; cbn
        | |- context [created ?i ?d] => destruct (created i d); cbn
        end;
      intros Hres; inversion Hres; subst;
      match goal with
      | Hc : throws (EnqueueErrorSnackBar ?message ?apollo) = Some error |- _ =>
          exists (EnqueueErrorSnackBar message apollo);
          split; [cbn; auto 10 | split; [reflexivity | exact Hc]]
      end.
  - destruct webhookId as [id|]; [destruct (String.eqb id "") eqn:Hid|];
      run_handler; rewrite ?Hid;
      repeat match goal with
        | |- context [throws ?c] => destruct (throws c) eqn:?; cbn
        end;
      intros Hres; inversion Hres; subst;
      match goal with
      | Hc : throws (EnqueueErrorSnackBar ?message ?apollo) = Some error |- _ =>
          exists (EnqueueErrorSnackBar message apollo);
          split; [cbn; auto 10 | split; [reflexivity | exact Hc]]
      end.
Qed.

End HandlerClaims.

Lemma no_request_without_webhook_id_witness :
  id_missing (Some "") = true
  /\ (WebhookForm.handleSave sample_isDefined sample_trim "0b1f" server_up echo
        Edit (Some "") sample_form []).2
     = [EnqueueErrorSnackBar (Some WebhookIdRequiredForUpdates) None]
  /\ (WebhookForm.deleteWebhook server_up (Some "") []).2
     = [EnqueueErrorSnackBar (Some WebhookIdRequiredForDeletion) None].
Proof.
  split; [reflexivity|].
  destruct (no_request_without_webhook_id sample_isDefined sample_trim "0b1f"
              server_up echo (Some "") sample_form eq_refl)
    as (_ & Hsave & Hdelete).
  split; [exact Hsave | exact Hdelete].
Defined.

Lemma failed_request_is_reported_witness :
  server_down (DeleteOneRecord "7c2e") = Some (ApolloError "network")
  /\ (WebhookForm.handleCreate sample_isDefined sample_trim "0b1f" server_down
        echo sample_form []).2
     = [CreateOneRecord "0b1f"
          {| wi_targetUrl := "https://example.com/hook";
             wi_operations := ["person.created"];
             wi_description := "notify";
             wi_secret := "s3cret" |};
        EnqueueErrorSnackBar None (Some (ApolloError "network"))]
  /\ (WebhookForm.deleteWebhook server_down (Some "7c2e") []).2
     = [DeleteOneRecord "7c2e";
        EnqueueErrorSnackBar None (Some (ApolloError "network"))].
Proof.
  split; [reflexivity|].
  destruct (failed_request_is_reported sample_isDefined sample_trim "0b1f"
              server_down echo "7c2e" sample_form (ApolloError "network"))
    as (Hcreate & _ & Hdelete).
  split; [exact (Hcreate eq_refl)|].
  apply Hdelete; [discriminate | reflexivity].
Defined.

Lemma save_request_carries_clean_data_witness :
  In (UpdateOneRecord "7c2e"
        (WebhookForm.webhookData sample_isDefined sample_trim sample_form))
     (WebhookForm.handleSave sample_isDefined sample_trim "0b1f" server_up echo
        Edit (Some "7c2e") sample_form []).2
  /\ Edit = Edit /\ Some "7c2e" = Some "7c2e" /\ "7c2e" <> "".
Proof.
  assert (Hin : In (UpdateOneRecord "7c2e"
                      (WebhookForm.webhookData sample_isDefined sample_trim
                         sample_form))
                   (WebhookForm.handleSave sample_isDefined sample_trim "0b1f"
                      server_up echo Edit (Some "7c2e") sample_form []).2)
    by (left; reflexivity).
  split; [exact Hin|].
  destruct (proj1 (proj2 (save_request_carries_clean_data sample_isDefined
                            sample_trim "0b1f" server_up echo Edit
                            (Some "7c2e") sample_form))
              _ Hin eq_refl)
    as [[Hcreate _] | (id & Hrequest & Hmode & Hid & Hnonempty)];
    [discriminate Hcreate|].
  injection Hrequest as <-.
  split; [exact Hmode | split; [exact Hid | exact Hnonempty]].
Defined.

Lemma handleCreate_success_witness :
  (WebhookForm.handleCreate sample_isDefined sample_trim "0b1f" server_up echo
     sample_form []).2
  = [CreateOneRecord "0b1f"
       {| wi_targetUrl := "https://example.com/hook";
          wi_operations := ["person.created"];
          wi_description := "notify";
          wi_secret := "s3cret" |};
     EnqueueSuccessSnackBar
       (WebhookCreatedSuccessfully "https://example.com/hook");
     Navigate WebhookDetail (Some "0b1f")].
Proof.
  exact (handleCreate_success sample_isDefined sample_trim "0b1f" server_up
           echo sample_form eq_refl eq_refl).
Defined.

Lemma handleUpdate_success_witness :
  (WebhookForm.handleUpdate sample_isDefined sample_trim server_up
     (Some "7c2e") sample_form []).2
  = [UpdateOneRecord "7c2e"
       {| wi_targetUrl := "https://example.com/hook";
          wi_operations := ["person.created"];
          wi_description := "notify";
          wi_secret := "s3cret" |};
     FormReset sample_form;
     EnqueueSuccessSnackBar
       (WebhookUpdatedSuccessfully "https://example.com/hook")].
Proof.
  exact (handleUpdate_success sample_isDefined sample_trim server_up "7c2e"
           sample_form ltac:(discriminate) eq_refl eq_refl).
Defined.

Lemma handlers_fail_only_in_the_error_snackbar_witness :
  (WebhookForm.deleteWebhook snackbar_down (Some "7c2e") []).1
  = inl (OtherError "unmounted")
  /\ exists c,
       In c (WebhookForm.deleteWebhook snackbar_down (Some "7c2e") []).2
       /\ is_error_snackbar c = true
       /\ snackbar_down c = Some (OtherError "unmounted").
Proof.
  split; [reflexivity|].
  exact (proj2 (handlers_fail_only_in_the_error_snackbar sample_isDefined
                  sample_trim "0b1f" snackbar_down echo Edit (Some "7c2e")
                  sample_form (OtherError "unmounted"))
           eq_refl).
Defined.

End WebhookFormClaims.
